(** * Guzzle: a shallow embedding of the task layer over gulp

    The development follows the source of the repository: the task
    class [GuzzleTask], the process-wide list [guzzleTasks], the
    resolution pass [makeGulpTasks], the DOT emitter [outputTaskGraph],
    the three lifecycle handlers installed by [guzzle], the completion
    wrapper [_onDoneFunction], the stream operation [read] and the
    console reporter [printTasks].

    The repository holds two versions of the module.  The later one adds
    the task states, the run-once option and the console reporter to the
    earlier one; the declaration, the resolution, the graph and [read]
    are the same in both, and the later version is the one embedded.

    JavaScript objects are shared and mutated in place.  A task object is
    therefore a cell of a store, and a reference to it is its position in
    [guzzleTasks]: the constructor pushes [this] onto that list, so every
    task object sits there exactly once, at the index of its creation.
    Streams are cells of a second store. *)

From Stdlib Require Import ZArith String Ascii List Lia DecimalString.
From stdpp Require Import base option list strings.

Open Scope string_scope.
Open Scope list_scope.

(** ** Data model *)

(** The [State] table of the source. *)
Inductive State := NOT_STARTED | STARTED | DONE | ERROR.

#[global] Instance State_eq_dec : EqDecision State.
Proof. solve_decision. Defined.

(** References are positions in a store; [FnRef] is the identity of a
    user supplied function (a task body). *)
Abbreviation TaskRef := nat (only parsing).
Abbreviation StreamRef := nat (only parsing).
Abbreviation FnRef := nat (only parsing).

(** An entry of a dependency array: a task name or a task object. *)
Inductive Dep :=
| DepName (s : string)
| DepTask (r : TaskRef).

#[global] Instance Dep_eq_dec : EqDecision Dep.
Proof. solve_decision. Defined.

(** The fields of a [GuzzleTask].  [_ended] is not set by the constructor
    and is [undefined] until the first stop signal.  [_onDoneFunction] is
    present exactly when a body was given; the wrapper around the body is
    [onDoneFunction_call] below. *)
Record GuzzleTask := mkTask {
  _name           : string;
  _stream         : option StreamRef;
  _started        : option Z;
  _ended          : option Z;
  _state          : State;
  _runOnce        : bool;
  _dependencies   : list Dep;
  _onDoneFunction : option FnRef
}.

Definition set_name (n : string) (t : GuzzleTask) : GuzzleTask :=
  mkTask n (_stream t) (_started t) (_ended t) (_state t) (_runOnce t)
         (_dependencies t) (_onDoneFunction t).
Definition set_stream (s : option StreamRef) (t : GuzzleTask) : GuzzleTask :=
  mkTask (_name t) s (_started t) (_ended t) (_state t) (_runOnce t)
         (_dependencies t) (_onDoneFunction t).
Definition set_started (d : option Z) (t : GuzzleTask) : GuzzleTask :=
  mkTask (_name t) (_stream t) d (_ended t) (_state t) (_runOnce t)
         (_dependencies t) (_onDoneFunction t).
Definition set_ended (d : option Z) (t : GuzzleTask) : GuzzleTask :=
  mkTask (_name t) (_stream t) (_started t) d (_state t) (_runOnce t)
         (_dependencies t) (_onDoneFunction t).
Definition set_state (s : State) (t : GuzzleTask) : GuzzleTask :=
  mkTask (_name t) (_stream t) (_started t) (_ended t) s (_runOnce t)
         (_dependencies t) (_onDoneFunction t).
Definition set_dependencies (ds : list Dep) (t : GuzzleTask) : GuzzleTask :=
  mkTask (_name t) (_stream t) (_started t) (_ended t) (_state t) (_runOnce t)
         ds (_onDoneFunction t).

(** What a listener registered by this module does when it fires: the
    closure of [read] resumes the new source stream, the closures of the
    completion wrapper reset [this._stream]. *)
Inductive Action :=
| Resume (s : StreamRef)
| ClearStream (t : TaskRef).

(** A stream as far as this module drives it: the flag toggled by
    [pause()] and [resume()], and the listeners added with [on]. *)
Record Stream := mkStream {
  paused    : bool;
  listeners : list (string * Action)
}.

(** One call of [gulp.task(name, deps, fn)]. *)
Record GulpTask := mkGulpTask {
  gname : string;
  gdeps : list string;
  gfn   : option FnRef
}.

(** The mutable state of the module and of its collaborators.
    [gulpStarted] counts the calls of the original [gulp.start];
    [vizInput] holds the texts handed to the renderer; [ticks] counts the
    readings of the clock. *)
Record World := mkWorld {
  guzzleTasks   : list GuzzleTask;
  graphFilename : option string;
  gulpTasks     : list GulpTask;
  gulpStarted   : nat;
  vizInput      : list string;
  streams       : list Stream;
  stdout        : list string;
  ticks         : nat
}.

Definition set_guzzleTasks (ts : list GuzzleTask) (w : World) : World :=
  mkWorld ts (graphFilename w) (gulpTasks w) (gulpStarted w) (vizInput w)
          (streams w) (stdout w) (ticks w).
Definition set_gulpTasks (gs : list GulpTask) (w : World) : World :=
  mkWorld (guzzleTasks w) (graphFilename w) gs (gulpStarted w) (vizInput w)
          (streams w) (stdout w) (ticks w).
Definition set_gulpStarted (n : nat) (w : World) : World :=
  mkWorld (guzzleTasks w) (graphFilename w) (gulpTasks w) n (vizInput w)
          (streams w) (stdout w) (ticks w).
Definition set_vizInput (v : list string) (w : World) : World :=
  mkWorld (guzzleTasks w) (graphFilename w) (gulpTasks w) (gulpStarted w) v
          (streams w) (stdout w) (ticks w).
Definition set_streams (ss : list Stream) (w : World) : World :=
  mkWorld (guzzleTasks w) (graphFilename w) (gulpTasks w) (gulpStarted w)
          (vizInput w) ss (stdout w) (ticks w).
Definition set_stdout (o : list string) (w : World) : World :=
  mkWorld (guzzleTasks w) (graphFilename w) (gulpTasks w) (gulpStarted w)
          (vizInput w) (streams w) o (ticks w).
Definition set_ticks (n : nat) (w : World) : World :=
  mkWorld (guzzleTasks w) (graphFilename w) (gulpTasks w) (gulpStarted w)
          (vizInput w) (streams w) (stdout w) n.

(** The state of a freshly loaded module. *)
Definition world0 : World :=
  mkWorld [] None [] 0 [] [] [] 0.

(** ** Declaration *)

(** The template [`${parent}.${child}`]. *)
Definition namespaced (parent child : string) : string :=
  parent +:+ "." +:+ child.

(** One step of [dependencies.map] in the constructor: a task object has
    its [_name] overwritten in place, a string is left alone.  A
    reference always points to an existing object, so the update is never
    out of range. *)
Definition namespace_dep (parent : string) (ts : list GuzzleTask) (d : Dep)
  : list GuzzleTask :=
  match d with
  | DepTask r => alter (fun t => set_name (namespaced parent (_name t)) t) r ts
  | DepName _ => ts
  end.

(** [new GuzzleTask(name, dependencies, onDoneFunction, { runOnce })].
    The callback of [map] returns its argument, so [_dependencies] holds
    the entries as given; [guzzleTasks.push(this)] follows the renaming.
    The result is the new world and the reference of the new object. *)
Definition new_GuzzleTask (name : string) (dependencies : list Dep)
    (onDoneFunction : option FnRef) (runOnce : bool) (w : World)
  : World * TaskRef :=
  let ts := foldl (namespace_dep name) (guzzleTasks w) dependencies in
  let this := mkTask name None None None NOT_STARTED runOnce dependencies
                     onDoneFunction in
  (set_guzzleTasks (ts ++ [this]) w, length ts).

(** The calls that [parseTaskArguments] tells apart.  [ArgBody fn] is the
    call with exactly two arguments of which the second is a function:
    there is then no third argument.  In the other calls [depends] is an
    array or a single value, followed by the body if there is one.  An
    entry is [None] for a falsy value such as [null]; the entries that
    are not falsy are names and task objects. *)
Inductive TaskArguments :=
| ArgBody (fn : FnRef)
| ArgArray (ds : list (option Dep)) (doneCallback : option FnRef)
| ArgSingle (d : option Dep) (doneCallback : option FnRef).

(** [_.compact]: falsy entries go, and the empty string is falsy. *)
Definition compact (ds : list (option Dep)) : list Dep :=
  omap (fun d => match d with
                 | Some (DepName EmptyString) => None
                 | other => other
                 end) ds.

Definition parseTaskArguments (args : TaskArguments)
  : list Dep * option FnRef :=
  match args with
  | ArgBody fn => ([], Some fn)
  | ArgArray ds doneCallback => (compact ds, doneCallback)
  | ArgSingle d doneCallback => (compact [d], doneCallback)
  end.

(** [guzzle.task] and [guzzle.taskOnce], as they read.  In the later
    version of the module the two functions declare [name], [depends],
    [doneCallback] and [options] a second time with [const], next to the
    parameters of the same names, which JavaScript refuses when it reads
    the module; the earlier version has no such declaration.  What is
    embedded is the computation that both versions write down. *)
Definition task (name : string) (args : TaskArguments) (runOnce : bool)
    (w : World) : World * TaskRef :=
  let '(deps, fn) := parseTaskArguments args in
  new_GuzzleTask name deps fn runOnce w.

Definition taskOnce (name : string) (args : TaskArguments) (w : World)
  : World * TaskRef :=
  task name args true w.

Definition task_name (w : World) (r : TaskRef) : option string :=
  _name <$> guzzleTasks w !! r.

(** ** Resolution *)

(** [_.find(guzzleTasks, { _name : n })]: the first task of that name. *)
Definition find_by_name (ts : list GuzzleTask) (n : string)
  : option (TaskRef * GuzzleTask) :=
  list_find (fun t => _name t = n) ts.

(** [findGuzzleTask]. *)
Definition findGuzzleTask (w : World) (taskName : string) : option TaskRef :=
  fst <$> find_by_name (guzzleTasks w) taskName.

(** The message of the [Error] thrown by the resolution. *)
Definition not_found_message (dependantTask : string) : string :=
  "task not found: " +:+ dependantTask.

(** The callback of [_dependencies.map] in [makeGulpTasks]; [inl] is a
    thrown error. *)
Definition resolve_dep (ts : list GuzzleTask) (d : Dep) : string + Dep :=
  match d with
  | DepName s =>
      match find_by_name ts s with
      | Some (r, _) => inr (DepTask r)
      | None => inl (not_found_message s)
      end
  | DepTask r => inr (DepTask r)
  end.

(** [Array.prototype.map] with a callback that may throw: entries are
    visited from the left and the first throw abandons the rest. *)
Fixpoint resolve_deps (ts : list GuzzleTask) (ds : list Dep)
  : string + list Dep :=
  match ds with
  | [] => inr []
  | d :: ds' =>
      match resolve_dep ts d with
      | inl e => inl e
      | inr d' =>
          match resolve_deps ts ds' with
          | inl e => inl e
          | inr ds'' => inr (d' :: ds'')
          end
      end
  end.

(** [dependency._name]; on a string the property is [undefined], and so
    is the text the template prints. *)
Definition dep_name (ts : list GuzzleTask) (d : Dep) : string :=
  match d with
  | DepTask r => from_option _name "undefined" (ts !! r)
  | DepName _ => "undefined"
  end.

(** The body of the [forEach] of [makeGulpTasks] for the task at [r]:
    the dependency array is replaced, then the task is handed to
    [gulp.task].  A throw leaves the world as it was before this task. *)
Definition makeGulpTask (w : World) (r : TaskRef) (t : GuzzleTask)
  : World * option string :=
  match resolve_deps (guzzleTasks w) (_dependencies t) with
  | inl e => (w, Some e)
  | inr ds =>
      let ts := <[r := set_dependencies ds t]> (guzzleTasks w) in
      let g := mkGulpTask (_name t) (map (dep_name ts) ds) (_onDoneFunction t) in
      (set_gulpTasks (gulpTasks w ++ [g]) (set_guzzleTasks ts w), None)
  end.

(** The loop itself, from index [r] on, with [n] tasks left to visit. *)
Fixpoint makeGulpTasks_from (n : nat) (r : TaskRef) (w : World)
  : World * option string :=
  match n with
  | O => (w, None)
  | S n' =>
      match guzzleTasks w !! r with
      | None => (w, None)
      | Some t =>
          match makeGulpTask w r t with
          | (w', Some e) => (w', Some e)
          | (w', None) => makeGulpTasks_from n' (S r) w'
          end
      end
  end.

Definition makeGulpTasks (w : World) : World * option string :=
  makeGulpTasks_from (length (guzzleTasks w)) 0 w.

(** ** Graph emission *)

Definition dq : string := String (ascii_of_nat 34) EmptyString.
Definition nl : string := String (ascii_of_nat 10) EmptyString.

(** [Array.prototype.join]. *)
Fixpoint join (sep : string) (l : list string) : string :=
  match l with
  | [] => EmptyString
  | [x] => x
  | x :: l' => x +:+ sep +:+ join sep l'
  end.

(** The two entries of [attr]. *)
Definition attr (t : GuzzleTask) : list string :=
  [ "shape=" +:+ (if decide (length (_dependencies t) = 0)
                  then "ellipse" else "box");
    "style=" +:+ (match _onDoneFunction t with
                  | Some _ => "solid"
                  | None => "dashed"
                  end) ].

(** The lines pushed onto [result] for one task. *)
Definition push_task (ts : list GuzzleTask) (result : list string)
    (t : GuzzleTask) : list string :=
  let result1 :=
    result ++ [dq +:+ _name t +:+ dq +:+ " [" +:+ join "," (attr t) +:+ "];"] in
  if decide (0 < length (_dependencies t)) then
    foldl (fun res dependency =>
             res ++ [dq +:+ _name t +:+ dq +:+ " -> " +:+ dq
                       +:+ dep_name ts dependency +:+ dq +:+ ";"])
          result1 (_dependencies t)
  else result1.

(** The array [result] of [outputTaskGraph] before the join. *)
Definition taskGraph_lines (ts : list GuzzleTask) : list string :=
  foldl (push_task ts) ["digraph G {"] ts ++ ["}"].

(** [result.join('\n')], the text given to the renderer. *)
Definition taskGraph_text (ts : list GuzzleTask) : string :=
  join nl (taskGraph_lines ts).

Definition outputTaskGraph (w : World) : World :=
  set_vizInput (vizInput w ++ [taskGraph_text (guzzleTasks w)]) w.

(** The replacement of [gulp.start]: resolution, the graph when a file
    name is configured, then the original [start].  A throw of the
    resolution leaves the function at once. *)
Definition gulp_start (w : World) : World * option string :=
  match makeGulpTasks w with
  | (w1, Some e) => (w1, Some e)
  | (w1, None) =>
      let w2 := match graphFilename w1 with
                | Some _ => outputTaskGraph w1
                | None => w1
                end in
      (set_gulpStarted (S (gulpStarted w2)) w2, None)
  end.

(** ** Streams *)

(** [gulp.src(...)]: a new stream object, not paused by this module and
    without listeners of this module. *)
Definition gulp_src (w : World) : World * StreamRef :=
  (set_streams (streams w ++ [mkStream false []]) w, length (streams w)).

Definition stream_pause (s : StreamRef) (w : World) : World :=
  set_streams (alter (fun x => mkStream true (listeners x)) s (streams w)) w.

Definition stream_resume (s : StreamRef) (w : World) : World :=
  set_streams (alter (fun x => mkStream false (listeners x)) s (streams w)) w.

(** [stream.on(eventName, listener)]. *)
Definition stream_on (s : StreamRef) (ev : string) (a : Action) (w : World)
  : World :=
  set_streams
    (alter (fun x => mkStream (paused x) (listeners x ++ [(ev, a)])) s (streams w))
    w.

Definition assign_stream (this : TaskRef) (s : option StreamRef) (w : World)
  : World :=
  set_guzzleTasks (alter (set_stream s) this (guzzleTasks w)) w.

(** The body of a listener. *)
Definition run_action (w : World) (a : Action) : World :=
  match a with
  | Resume s => stream_resume s w
  | ClearStream t => assign_stream t None w
  end.

(** The listeners of [s] for the event [ev], in the order of their
    registration. *)
Definition listeners_for (w : World) (s : StreamRef) (ev : string)
  : list Action :=
  match streams w !! s with
  | Some x => map snd (filter (fun l => fst l = ev) (listeners x))
  | None => []
  end.

(** The stream [s] emits [ev]: its listeners for [ev] run in turn. *)
Definition emit (s : StreamRef) (ev : string) (w : World) : World :=
  foldl run_action w (listeners_for w s ev).

(** [GuzzleTask.prototype.read]; [None] when [this] is no task. *)
Definition read (this : TaskRef) (w : World) : option World :=
  t ← guzzleTasks w !! this;
  let oldStream := _stream t in
  let '(w1, newStream) := gulp_src w in
  let w2 := assign_stream this (Some newStream) w1 in
  Some match oldStream with
       | Some old =>
           stream_on old "finish" (Resume newStream) (stream_pause newStream w2)
       | None => w2
       end.

(** What the environment may do to the streams after a call of [read]:
    a stream emits an event, a stream tries to deliver a chunk of data,
    or a task calls [read] again.  A paused stream delivers nothing;
    that is the meaning of the flag. *)
Inductive Step :=
| StepEmit (s : StreamRef) (ev : string)
| StepData (s : StreamRef)
| StepRead (t : TaskRef).

(** One step; the second component lists the streams that delivered
    data. *)
Definition run_step (w : World) (st : Step) : World * list StreamRef :=
  match st with
  | StepEmit s ev => (emit s ev w, [])
  | StepData s =>
      match streams w !! s with
      | Some x => (w, if paused x then [] else [s])
      | None => (w, [])
      end
  | StepRead t => (default w (read t w), [])
  end.

Fixpoint run_steps (w : World) (tr : list Step) : World * list StreamRef :=
  match tr with
  | [] => (w, [])
  | st :: tr' =>
      let '(w1, d1) := run_step w st in
      let '(w2, d2) := run_steps w1 tr' in
      (w2, d1 ++ d2)
  end.


(** No listener refers to a stream that does not exist yet. *)
Definition listeners_in_range (w : World) : Prop :=
  forall s x ev s', streams w !! s = Some x ->
    (ev, Resume s') ∈ listeners x -> s' < length (streams w).



(** Every listener that resumes the stream [k] sits on a stream and an
    event allowed by [P]. *)
Definition resumers_ok (P : nat -> string -> Prop) (k : StreamRef) (w : World)
  : Prop :=
  forall s x ev, streams w !! s = Some x ->
    (ev, Resume k) ∈ listeners x -> P s ev.

Definition is_paused (k : StreamRef) (w : World) : Prop :=
  exists x, streams w !! k = Some x /\ paused x = true.

(** The stream [s2] is held for [s1]: it is paused, and nothing but a
    [finish] of [s1] resumes it. *)
Definition held_for (s1 s2 : StreamRef) (w : World) : Prop :=
  is_paused s2 w /\ resumers_ok (fun s ev => s = s1 /\ ev = "finish") s2 w.



(** ** Definitions used to state the properties *)

(** The number of times the task object [r] is listed in [ds]. *)
Fixpoint occurrences (r : TaskRef) (ds : list Dep) : nat :=
  match ds with
  | [] => 0
  | DepTask r' :: ds' =>
      (if decide (r' = r) then 1 else 0) + occurrences r ds'
  | DepName _ :: ds' => occurrences r ds'
  end.

(** [mentions n s]: the text [n] occurs in [s]. *)
Fixpoint mentions (n s : string) : bool :=
  String.prefix n s ||
  match s with
  | EmptyString => false
  | String _ s' => mentions n s'
  end.

(** The name of the first string entry of [ds] that no task carries. *)
Fixpoint first_missing (ts : list GuzzleTask) (ds : list Dep) : option string :=
  match ds with
  | [] => None
  | DepName s :: ds' =>
      match find_by_name ts s with
      | Some _ => first_missing ts ds'
      | None => Some s
      end
  | DepTask _ :: ds' => first_missing ts ds'
  end.

(** The task [t] of the list refers, by the string [d], to a name that no
    declared task carries. *)
Definition unresolved (w : World) (t : GuzzleTask) (d : string) : Prop :=
  t ∈ guzzleTasks w /\ DepName d ∈ _dependencies t /\
  find_by_name (guzzleTasks w) d = None.

(** The failure as the specification words it: the message of the error
    names the missing dependency and the task that refers to it. *)
Definition spec_DependencyNotFound (w : World) : Prop :=
  forall t d, unresolved w t d ->
    exists msg, snd (makeGulpTasks w) = Some msg /\
      mentions d msg = true /\ mentions (_name t) msg = true.

(** Every entry of the dependency list of [t] is a task object. *)
Definition resolved (t : GuzzleTask) : Prop :=
  forall d, d ∈ _dependencies t -> exists r, d = DepTask r.

(** The entry that the resolution leaves in the place of [d]: the first
    task of that name for a string, the object itself otherwise. *)
Definition resolved_dep (ts : list GuzzleTask) (d : Dep) : Dep :=
  match d with
  | DepName s =>
      match find_by_name ts s with
      | Some (r, _) => DepTask r
      | None => d
      end
  | DepTask _ => d
  end.

Definition resolved_task (ts : list GuzzleTask) (t : GuzzleTask) : GuzzleTask :=
  set_dependencies (map (resolved_dep ts) (_dependencies t)) t.

(** The name under which a dependency entry reaches [gulp.task]: a string
    as it was written, an object by the name it carries. *)
Definition dep_label (ts : list GuzzleTask) (d : Dep) : string :=
  match d with
  | DepName s => s
  | DepTask r => from_option _name "undefined" (ts !! r)
  end.

(** The call of [gulp.task] made for the task [t]. *)
Definition registration (ts : list GuzzleTask) (t : GuzzleTask) : GulpTask :=
  mkGulpTask (_name t) (map (dep_label ts) (_dependencies t)) (_onDoneFunction t).

(** What the scheduler's side relies on in a task. *)
Definition skeleton (t : GuzzleTask) : string * bool * option nat :=
  (_name t, _runOnce t, _onDoneFunction t).

(** A clock that never runs backwards. *)
Definition monotone (clock : nat -> Z) : Prop :=
  forall a b, a <= b -> (clock a <= clock b)%Z.

(** [gulp.task] of gulp 3 refuses an empty name with [Task requires a
    name]; the registry of the model has no such check, so the
    properties of a run that goes through are stated for worlds whose
    tasks all carry a non-empty name. *)
Definition names_nonempty (w : World) : bool :=
  forallb (fun t => negb (String.eqb (_name t) EmptyString)) (guzzleTasks w).

(** Every string entry of every task names a declared task. *)
Definition all_resolvable (w : World) : bool :=
  forallb (fun t => match first_missing (guzzleTasks w) (_dependencies t) with
                    | Some _ => false
                    | None => true
                    end)
          (guzzleTasks w).

(** Three declarations used as a running example: a sub-task given as an
    object, its parent, and a task the parent names by a string that is
    declared after it. *)
Definition sample_world : World :=
  let w1 := fst (task "css" (ArgBody 0) false world0) in
  let w2 := fst (task "build"
                      (ArgArray [Some (DepTask 0); Some (DepName "lint")] None)
                      false w1) in
  fst (task "lint" (ArgBody 1) false w2).

(** The running example with a graph file configured. *)
Definition sample_world_graph : World :=
  mkWorld (guzzleTasks sample_world) (Some "graph.svg") [] 0 [] [] [] 0.

(** The renaming as the specification words it: a task object among the
    dependencies ends up named by the parent's name, a dot, and the name
    it had before the declaration. *)
Definition spec_namespaced (parent : string) (ds : list Dep)
    (fn : option FnRef) (once : bool) (w : World) : Prop :=
  forall r t, guzzleTasks w !! r = Some t -> DepTask r ∈ ds ->
    task_name (fst (new_GuzzleTask parent ds fn once w)) r
    = Some (parent +:+ "." +:+ _name t).

Module Graph.

(** The two style attributes as the specification names them. *)
Inductive Shape := box | ellipse.
Inductive Outline := solid | dashed.

Definition shape_text (s : Shape) : string :=
  match s with box => "box" | ellipse => "ellipse" end.
Definition outline_text (o : Outline) : string :=
  match o with solid => "solid" | dashed => "dashed" end.

(** A leaf has no dependencies; a barrier has no body. *)
Definition shape_of (t : GuzzleTask) : Shape :=
  match _dependencies t with [] => ellipse | _ :: _ => box end.
Definition outline_of (t : GuzzleTask) : Outline :=
  match _onDoneFunction t with Some _ => solid | None => dashed end.

Definition node_declaration (name : string) (s : Shape) (o : Outline)
  : string :=
  dq +:+ name +:+ dq +:+ " [shape=" +:+ shape_text s +:+ ",style="
     +:+ outline_text o +:+ "];".

Definition edge_declaration (dependent dependency : string) : string :=
  dq +:+ dependent +:+ dq +:+ " -> " +:+ dq +:+ dependency +:+ dq +:+ ";".

(** The lines of one task: its node, then one edge for each entry of
    its dependency list, in the order of the list. *)
Definition task_lines (ts : list GuzzleTask) (t : GuzzleTask) : list string :=
  node_declaration (_name t) (shape_of t) (outline_of t)
  :: map (fun d => edge_declaration (_name t) (dep_name ts d))
         (_dependencies t).

(** The description as the specification words it: the tasks in the
    order of their declaration between the opening and closing lines. *)
Definition description (ts : list GuzzleTask) : list string :=
  "digraph G {" :: flat_map (task_lines ts) ts ++ ["}"].

Definition edge_count (ts : list GuzzleTask) : nat :=
  list_sum (map (fun t => length (_dependencies t)) ts).

End Graph.

(** The name of the dependency that an entry of a declaration stands
    for: the string itself, or the name carried by the task object. *)
Definition declared_target (ts : list GuzzleTask) (d : Dep) : string :=
  match d with
  | DepName s => s
  | DepTask r =>
      match ts !! r with
      | Some t => _name t
      | None => EmptyString
      end
  end.

(** The lines that a declared task stands for: its node, then an edge
    from its name to the name of each dependency, in the order of its
    list. *)
Definition declared_lines (ts : list GuzzleTask) (t : GuzzleTask)
  : list string :=
  Graph.node_declaration (_name t) (Graph.shape_of t) (Graph.outline_of t)
  :: map (fun d => Graph.edge_declaration (_name t) (declared_target ts d))
         (_dependencies t).

Definition declared_description (ts : list GuzzleTask) : list string :=
  "digraph G {" :: flat_map (declared_lines ts) ts ++ ["}"].

(** Every task object among the entries is a declared task. *)
Definition refs_in_range (w : World) : bool :=
  forallb (fun t => forallb (fun d => match d with
                                      | DepTask r => Nat.ltb r (length (guzzleTasks w))
                                      | DepName _ => true
                                      end)
                            (_dependencies t))
          (guzzleTasks w).

(** The text has no line break. *)
Fixpoint one_line (s : string) : bool :=
  match s with
  | EmptyString => true
  | String c s' => negb (Ascii.eqb c (ascii_of_nat 10)) && one_line s'
  end.

Definition names_one_line (w : World) : bool :=
  forallb (fun t => one_line (_name t)) (guzzleTasks w).

(** The lines of a text, as [split('\n')] gives them. *)
Fixpoint split_lines (s : string) : list string :=
  match s with
  | EmptyString => [EmptyString]
  | String c s' =>
      if Ascii.eqb c (ascii_of_nat 10) then EmptyString :: split_lines s'
      else match split_lines s' with
           | x :: rest => String c x :: rest
           | [] => [String c EmptyString]
           end
  end.

(** ** Console reporter, lifecycle handlers and completion wrapper *)

(** The four styles of [cli-color] that [printTasks] uses. *)
Record Clc := mkClc {
  yellow      : string -> string;
  green_bold  : string -> string;
  redBright   : string -> string;
  blackBright : string -> string
}.

(** The value a task body returns, as far as the wrapper looks at it. *)
Inductive JsValue :=
| JsUndefined
| JsPromise (id : nat)
| JsOther (id : nat).

(** What the wrapper returns: the live stream or the body's result. *)
Inductive Returned :=
| RetStream (s : StreamRef)
| RetValue (v : JsValue).

(** The two ways through the wrapper: [return callback()] without the
    body, or a run of the body. *)
Inductive Outcome :=
| CalledBack
| BodyRan (ret : Returned).

Definition body_ran (o : Outcome) : bool :=
  match o with
  | CalledBack => false
  | BodyRan _ => true
  end.

(** The decimal text of an integer, as JavaScript prints it. *)
Definition string_of_Z (z : Z) : string :=
  NilZero.string_of_int (Z.to_int z).

(** [Math.round(elapsed / 100)] for an integer number of milliseconds.
    The quotient is a double; the halves [k + 0.5] are exact and every
    other quotient is at least 0.01 away from a half, so the rounding
    (halves go up) is the integer division of [elapsed + 50]. *)
Definition round_div100 (elapsed : Z) : Z := (elapsed + 50) / 100.

(** The text of [tenths / 10] for a non-negative integer [tenths]: the
    shortest decimal that reads back as the same double, which has no
    fraction when [tenths] is a multiple of ten and one digit otherwise. *)
Definition tenths_text (tenths : Z) : string :=
  if decide (tenths mod 10 = 0)%Z then string_of_Z (tenths / 10)
  else string_of_Z (tenths / 10) +:+ "." +:+ string_of_Z (tenths mod 10).

(** The first assignment of [elapsed] in [printTasks]: a [Date] is
    truthy, so [_ended || now] is [_ended] whenever it is set. *)
Definition elapsed_ms (now : Z) (t : GuzzleTask) : Z :=
  match _started t with
  | Some started => (default now (_ended t) - started)%Z
  | None => 0%Z
  end.

(** The second assignment of [elapsed]. *)
Definition elapsed_text (elapsed : Z) : string :=
  if decide (1000 < elapsed)%Z then tenths_text (round_div100 elapsed) +:+ "s"
  else string_of_Z elapsed +:+ "ms".

Definition esc : string := String (ascii_of_nat 27) EmptyString.

(** ** Sample collaborators

    Concrete styles, a clock and two task bodies on which the properties
    below are exercised. *)

(** Styles that leave the text as it is. *)
Definition plain : Clc := mkClc id id id id.

(** A clock that advances by one second at every reading. *)
Definition clock_1s (n : nat) : Z := (1000 * Z.of_nat n)%Z.

(** A body that does nothing and returns [undefined]. *)
Definition idle_body (fn : FnRef) (this : TaskRef) (w : World)
  : World * JsValue :=
  (w, JsUndefined).

(** A body that calls [this.read(...)] and returns a promise. *)
Definition reading_body (fn : FnRef) (this : TaskRef) (w : World)
  : World * JsValue :=
  (default w (read this w), JsPromise 0).

Section Guzzle.

(** The successive readings of [new Date()], in milliseconds. *)
Variable clock : nat -> Z.
Variable clc : Clc.
(** The option [prettyPrint] given to [guzzle]. *)
Variable prettyPrint : bool.
(** What a user function does when called with [this] set to a task:
    it may change anything and returns a value. *)
Variable body : FnRef -> TaskRef -> World -> World * JsValue.

Definition new_Date (w : World) : Z * World :=
  (clock (ticks w), set_ticks (S (ticks w)) w).

Definition stateSymbols (s : State) : string :=
  match s with
  | NOT_STARTED => "-"
  | STARTED => yellow clc "?"
  | DONE => green_bold clc "âœ“"
  | ERROR => redBright clc "X"
  end.

(** The suffix of a line: the test [elapsed ? ... : ''] is made on the
    text, and only the empty text is falsy. *)
Definition elapsed_suffix (now : Z) (t : GuzzleTask) : string :=
  match elapsed_text (elapsed_ms now t) with
  | EmptyString => EmptyString
  | elapsed => blackBright clc ("(" +:+ elapsed +:+ ")")
  end.

(** The line of one task. *)
Definition task_line (now : Z) (t : GuzzleTask) : string :=
  stateSymbols (_state t) +:+ " " +:+ _name t +:+ " " +:+ elapsed_suffix now t.

Definition printTasks (w : World) : World :=
  let '(now, w1) := new_Date w in
  set_stdout
    (stdout w1 ++ [esc +:+ "c" +:+ nl
                     +:+ join nl (map (task_line now) (guzzleTasks w1))
                     +:+ nl +:+ "---" +:+ nl])
    w1.

Definition print_if_pretty (w : World) : World :=
  if prettyPrint then printTasks w else w.

(** The handler of [task_start].  [None] is the [TypeError] raised when
    no task has the name of the event. *)
Definition on_task_start (taskName : string) (w : World) : option World :=
  r ← findGuzzleTask w taskName;
  let w1 := set_guzzleTasks (alter (set_state STARTED) r (guzzleTasks w)) w in
  let '(now, w2) := new_Date w1 in
  let w3 :=
    set_guzzleTasks (alter (set_started (Some now)) r (guzzleTasks w2)) w2 in
  Some (print_if_pretty w3).

(** The handler of [task_stop]. *)
Definition on_task_stop (taskName : string) (w : World) : option World :=
  r ← findGuzzleTask w taskName;
  t ← guzzleTasks w !! r;
  if decide (_state t = DONE) then Some w
  else
    let w1 := set_guzzleTasks (alter (set_state DONE) r (guzzleTasks w)) w in
    let '(now, w2) := new_Date w1 in
    let w3 :=
      set_guzzleTasks (alter (set_ended (Some now)) r (guzzleTasks w2)) w2 in
    Some (print_if_pretty w3).

(** The handler of [task_err]. *)
Definition on_task_err (taskName : string) (w : World) : option World :=
  r ← findGuzzleTask w taskName;
  let w1 := set_guzzleTasks (alter (set_state ERROR) r (guzzleTasks w)) w in
  Some (print_if_pretty w1).

(** The arrow function stored in [_onDoneFunction] for the body [fn] of
    the task [this]. *)
Definition onDoneFunction_call (fn : FnRef) (this : TaskRef) (w : World)
  : option (World * Outcome) :=
  t ← guzzleTasks w !! this;
  if _runOnce t && negb (bool_decide (_state t = NOT_STARTED)) then
    Some (w, CalledBack)
  else
    let '(w1, result) := body fn this w in
    t1 ← guzzleTasks w1 !! this;
    match _stream t1 with
    | Some s =>
        let w2 := stream_on s "finish" (ClearStream this) w1 in
        let w3 := stream_on s "end" (ClearStream this) w2 in
        Some (w3, BodyRan (RetStream s))
    | None => Some (w1, BodyRan (RetValue result))
    end.

(** ** The scheduler's side

    gulp hands the three task events over from its scheduler.  For one
    run of a task the scheduler emits [task_start], calls the function
    registered with [gulp.task] and, once that function has signalled
    its end, emits [task_stop] or [task_err]. *)

Inductive Signal := SigStart | SigStop | SigErr.

Definition deliver (sig : Signal) (taskName : string) (w : World)
  : option World :=
  match sig with
  | SigStart => on_task_start taskName w
  | SigStop => on_task_stop taskName w
  | SigErr => on_task_err taskName w
  end.

Definition state_of (w : World) (r : TaskRef) : option State :=
  _state <$> guzzleTasks w !! r.

(** The signals [sigs] delivered in turn for the task at [r], with the
    state of that task before and after each of them. *)
Fixpoint run_signals (r : TaskRef) (sigs : list Signal) (w : World)
  : option (World * list (State * State)) :=
  match sigs with
  | [] => Some (w, [])
  | sig :: sigs' =>
      t ← guzzleTasks w !! r;
      w1 ← deliver sig (_name t) w;
      s1 ← state_of w1 r;
      '(w2, trs) ← run_signals r sigs' w1;
      Some (w2, (_state t, s1) :: trs)
  end.

(** How a run of a task ends when its body was started. *)
Inductive Completion := Stops | Fails | Hangs.

(** The function the scheduler calls for the task at [r]: the wrapper
    when the task has a body, nothing otherwise. *)
Definition call_task_fn (r : TaskRef) (w : World)
  : option (World * Outcome) :=
  t ← guzzleTasks w !! r;
  match _onDoneFunction t with
  | Some fn => onDoneFunction_call fn r w
  | None => Some (w, CalledBack)
  end.

(** One activation of the task at [r].  [callback()] tells the
    scheduler that the run is over, which makes it emit [task_stop]. *)
Definition activation (r : TaskRef) (c : Completion) (w : World)
  : option (World * bool) :=
  t ← guzzleTasks w !! r;
  w1 ← on_task_start (_name t) w;
  '(w2, out) ← call_task_fn r w1;
  w3 ← match out, c with
       | CalledBack, _ | BodyRan _, Stops => on_task_stop (_name t) w2
       | BodyRan _, Fails => on_task_err (_name t) w2
       | BodyRan _, Hangs => Some w2
       end;
  Some (w3, body_ran out).

(** A sequence of activations and the number of runs of the body. *)
Fixpoint activations (r : TaskRef) (cs : list Completion) (w : World)
  : option (World * nat) :=
  match cs with
  | [] => Some (w, 0)
  | c :: cs' =>
      '(w1, ran) ← activation r c w;
      '(w2, n) ← activations r cs' w1;
      Some (w2, (if (ran : bool) then 1 else 0) + n)
  end.

(** The state in which a handler leaves the task it finds. *)
Definition state_after (sig : Signal) : State :=
  match sig with
  | SigStart => STARTED
  | SigStop => DONE
  | SigErr => ERROR
  end.




(** Seconds written with one decimal place. *)
Definition seconds_one_decimal (elapsed : Z) : string :=
  string_of_Z (round_div100 elapsed / 10) +:+ "."
    +:+ string_of_Z (round_div100 elapsed mod 10) +:+ "s".

(** The suffix as the specification words it: none for a task that never
    started, milliseconds under one second, seconds with one decimal
    place from one second on. *)
Definition spec_elapsed_suffix (now : Z) (t : GuzzleTask) : string :=
  match _started t with
  | None => EmptyString
  | Some started =>
      let elapsed := (default now (_ended t) - started)%Z in
      blackBright clc
        ("(" +:+ (if decide (elapsed < 1000)%Z then string_of_Z elapsed +:+ "ms"
                  else seconds_one_decimal elapsed) +:+ ")")
  end.

(** The signals [sigs] of the event name [taskName], delivered in turn. *)
Fixpoint deliver_all (sigs : list Signal) (taskName : string) (w : World)
  : option World :=
  match sigs with
  | [] => Some w
  | sig :: sigs' => deliver sig taskName w ≫= deliver_all sigs' taskName
  end.

(** The stamps that go with a state: a task in [STARTED] has a start
    stamp and a task in [DONE] has an end stamp. *)
Definition stamps_ok (t : GuzzleTask) : Prop :=
  (_state t = STARTED -> is_Some (_started t)) /\
  (_state t = DONE -> is_Some (_ended t)).

(** * Properties of the handlers, the wrapper and the reporter *)

(** ** Lookup by name depends on the names only *)

Lemma findGuzzleTask_names w w' n :
  map _name (guzzleTasks w') = map _name (guzzleTasks w) ->
  findGuzzleTask w' n = findGuzzleTask w n.
Proof.
  intros E. unfold findGuzzleTask, find_by_name.
  assert (H : forall ts, fst <$> list_find (fun t => _name t = n) ts
                         = fst <$> list_find (fun x => x = n) (_name <$> ts)).
  { intros ts. rewrite list_find_fmap.
    destruct (list_find ((fun x => x = n) ∘ _name) ts) as [[i t]|] eqn:Hf.
    - simpl in Hf |- *. unfold compose in Hf. rewrite Hf. done.
    - simpl in Hf |- *. unfold compose in Hf. rewrite Hf. done. }
  rewrite !H. change (fmap (M:=list) _name) with (map _name). by rewrite E.
Qed.

Lemma insert_same_name (ts : list GuzzleTask) r t t' :
  ts !! r = Some t -> _name t' = _name t ->
  map _name (<[r := t']> ts) = map _name ts.
Proof.
  intros Hr Hn. change (map _name) with (fmap (M:=list) _name).
  rewrite list_fmap_insert, Hn.
  apply list_insert_id. by rewrite list_lookup_fmap, Hr.
Qed.

Lemma alter_as_insert {A} (f : A -> A) r (l : list A) x :
  l !! r = Some x -> alter f r l = <[r := f x]> l.
Proof.
  revert r. induction l as [|y l IH]; intros [|r] H; simpl in *; try done.
  - by injection H as ->.
  - f_equal. by apply IH.
Qed.

Lemma guzzleTasks_print_if_pretty w :
  guzzleTasks (print_if_pretty w) = guzzleTasks w /\
  streams (print_if_pretty w) = streams w.
Proof. unfold print_if_pretty. by destruct prettyPrint. Qed.

(** ** The three handlers *)

Lemma on_task_start_spec taskName w r t :
  findGuzzleTask w taskName = Some r ->
  guzzleTasks w !! r = Some t ->
  exists w', on_task_start taskName w = Some w' /\
    guzzleTasks w'
    = <[r := set_started (Some (clock (ticks w))) (set_state STARTED t)]>
        (guzzleTasks w) /\
    streams w' = streams w.
Proof.
  intros Hf Hr. unfold on_task_start. rewrite Hf. simpl.
  eexists. split; [reflexivity |].
  destruct (guzzleTasks_print_if_pretty
    (set_guzzleTasks
       (alter (set_started (Some (clock (ticks w)))) r
          (alter (set_state STARTED) r (guzzleTasks w)))
       (set_ticks (S (ticks w))
          (set_guzzleTasks (alter (set_state STARTED) r (guzzleTasks w)) w))))
    as [-> ->].
  simpl. split; [| done].
  rewrite list_alter_alter_eq. by rewrite (alter_as_insert _ _ _ _ Hr).
Qed.

Lemma on_task_stop_spec taskName w r t :
  findGuzzleTask w taskName = Some r ->
  guzzleTasks w !! r = Some t ->
  _state t <> DONE ->
  exists w', on_task_stop taskName w = Some w' /\
    guzzleTasks w'
    = <[r := set_ended (Some (clock (ticks w))) (set_state DONE t)]>
        (guzzleTasks w) /\
    streams w' = streams w.
Proof.
  intros Hf Hr Hs. unfold on_task_stop. rewrite Hf. simpl. rewrite Hr. simpl.
  destruct (decide (_state t = DONE)) as [? | _]; [done |].
  eexists. split; [reflexivity |].
  destruct (guzzleTasks_print_if_pretty
    (set_guzzleTasks
       (alter (set_ended (Some (clock (ticks w)))) r
          (alter (set_state DONE) r (guzzleTasks w)))
       (set_ticks (S (ticks w))
          (set_guzzleTasks (alter (set_state DONE) r (guzzleTasks w)) w))))
    as [-> ->].
  simpl. split; [| done].
  rewrite list_alter_alter_eq. by rewrite (alter_as_insert _ _ _ _ Hr).
Qed.

Lemma on_task_stop_done taskName w r t :
  findGuzzleTask w taskName = Some r ->
  guzzleTasks w !! r = Some t ->
  _state t = DONE ->
  on_task_stop taskName w = Some w.
Proof.
  intros Hf Hr Hs. unfold on_task_stop. rewrite Hf. simpl. rewrite Hr. simpl.
  by destruct (decide (_state t = DONE)).
Qed.

Lemma on_task_err_spec taskName w r t :
  findGuzzleTask w taskName = Some r ->
  guzzleTasks w !! r = Some t ->
  exists w', on_task_err taskName w = Some w' /\
    guzzleTasks w' = <[r := set_state ERROR t]> (guzzleTasks w) /\
    streams w' = streams w.
Proof.
  intros Hf Hr. unfold on_task_err. rewrite Hf. simpl.
  eexists. split; [reflexivity |].
  destruct (guzzleTasks_print_if_pretty
    (set_guzzleTasks (alter (set_state ERROR) r (guzzleTasks w)) w))
    as [-> ->].
  simpl. split; [| done]. by apply alter_as_insert.
Qed.

(** After a handler has run, the task it found is in the state the
    handler assigns, with its name, its flag and its body untouched, and
    it is still the task found under that name. *)
Lemma deliver_spec sig w r t :
  guzzleTasks w !! r = Some t ->
  findGuzzleTask w (_name t) = Some r ->
  exists w' t', deliver sig (_name t) w = Some w' /\
    guzzleTasks w' !! r = Some t' /\
    _state t' = state_after sig /\
    _name t' = _name t /\ _runOnce t' = _runOnce t /\
    _onDoneFunction t' = _onDoneFunction t /\
    findGuzzleTask w' (_name t) = Some r.
Proof.
  intros Hr Hf.
  assert (Hlt : r < length (guzzleTasks w)) by (by apply lookup_lt_Some in Hr).
  assert (Hkeep : forall w' t', guzzleTasks w' = <[r := t']> (guzzleTasks w) ->
            _name t' = _name t ->
            guzzleTasks w' !! r = Some t' /\ findGuzzleTask w' (_name t) = Some r).
  { intros w' t' E Hn. split.
    - rewrite E. by apply list_lookup_insert_eq.
    - rewrite <- Hf. apply findGuzzleTask_names. rewrite E.
      by apply (insert_same_name _ _ t). }
  destruct sig; simpl.
  - destruct (on_task_start_spec _ _ _ _ Hf Hr) as (w' & Hrun & Hts & _).
    destruct (Hkeep _ _ Hts eq_refl) as [Hl Hf'].
    exists w', (set_started (Some (clock (ticks w))) (set_state STARTED t)).
    done.
  - destruct (decide (_state t = DONE)) as [Hd | Hnd].
    + exists w, t. rewrite (on_task_stop_done _ _ _ _ Hf Hr Hd). done.
    + destruct (on_task_stop_spec _ _ _ _ Hf Hr Hnd) as (w' & Hrun & Hts & _).
      destruct (Hkeep _ _ Hts eq_refl) as [Hl Hf'].
      exists w', (set_ended (Some (clock (ticks w))) (set_state DONE t)).
      done.
  - destruct (on_task_err_spec _ _ _ _ Hf Hr) as (w' & Hrun & Hts & _).
    destruct (Hkeep _ _ Hts eq_refl) as [Hl Hf'].
    exists w', (set_state ERROR t). done.
Qed.

(** C3.  A stop signal for a task that is already [DONE] changes
    nothing at all; for a task in any other state it sets [DONE] and
    stamps [_ended] with the time of the signal.  Either way a second
    stop signal right after it changes nothing. *)
Theorem stop_signal_idempotent taskName w r t :
  findGuzzleTask w taskName = Some r ->
  guzzleTasks w !! r = Some t ->
  exists w', on_task_stop taskName w = Some w' /\
    (_state t = DONE -> w' = w) /\
    (_state t <> DONE ->
       guzzleTasks w'
       = <[r := set_ended (Some (clock (ticks w))) (set_state DONE t)]>
           (guzzleTasks w)) /\
    on_task_stop taskName w' = Some w'.
Proof.
  intros Hf Hr.
  destruct (decide (_state t = DONE)) as [Hd | Hnd].
  - exists w. rewrite (on_task_stop_done _ _ _ _ Hf Hr Hd). done.
  - destruct (on_task_stop_spec _ _ _ _ Hf Hr Hnd) as (w' & Hrun & Hts & _).
    exists w'. split; [done |]. split; [done |]. split; [done |].
    assert (Hlt : r < length (guzzleTasks w)) by (by apply lookup_lt_Some in Hr).
    apply (on_task_stop_done _ _ r
             (set_ended (Some (clock (ticks w))) (set_state DONE t))).
    + rewrite <- Hf. apply findGuzzleTask_names. rewrite Hts.
      by apply (insert_same_name _ _ t).
    + rewrite Hts. by apply list_lookup_insert_eq.
    + reflexivity.
Qed.

(** ** The state machine *)



(** ** Run-once tasks under the scheduler *)

(** The wrapper of a run-once task that is not in [NOT_STARTED] calls
    back at once and leaves the body alone. *)
Lemma onDoneFunction_call_short_circuit fn this w t :
  guzzleTasks w !! this = Some t ->
  _runOnce t = true -> _state t <> NOT_STARTED ->
  onDoneFunction_call fn this w = Some (w, CalledBack).
Proof.
  intros Hr Hone Hs. unfold onDoneFunction_call. rewrite Hr. simpl.
  rewrite Hone. by rewrite bool_decide_eq_false_2.
Qed.

Lemma activation_runOnce r c w t :
  guzzleTasks w !! r = Some t ->
  findGuzzleTask w (_name t) = Some r ->
  _runOnce t = true ->
  exists w' t', activation r c w = Some (w', false) /\
    guzzleTasks w' !! r = Some t' /\ _name t' = _name t /\
    _runOnce t' = true /\ findGuzzleTask w' (_name t') = Some r.
Proof.
  intros Hr Hf Hone.
  destruct (deliver_spec SigStart w r t Hr Hf)
    as (w1 & t1 & Hstart & Hr1 & Hs1 & Hn1 & Hone1 & _ & Hf1).
  rewrite <- Hn1 in Hf1. rewrite Hone in Hone1.
  destruct (deliver_spec SigStop w1 r t1 Hr1 Hf1)
    as (w2 & t2 & Hstop & Hr2 & Hs2 & Hn2 & Hone2 & _ & Hf2).
  rewrite <- Hn2 in Hf2. rewrite Hone1 in Hone2. simpl in Hstart, Hstop.
  assert (Hcall : call_task_fn r w1 = Some (w1, CalledBack)).
  { unfold call_task_fn. rewrite Hr1. simpl.
    destruct (_onDoneFunction t1) as [fn|]; [| done].
    apply (onDoneFunction_call_short_circuit fn r w1 t1 Hr1 Hone1).
    by rewrite Hs1. }
  exists w2, t2. split.
  - unfold activation. rewrite Hr. simpl. rewrite Hstart. simpl.
    rewrite Hcall. simpl. rewrite <- Hn1, Hstop. done.
  - rewrite Hn2, Hn1 in *. done.
Qed.

(** C1, on the code.  The scheduler emits [task_start] before it calls
    the function of the task, and the handler of [task_start] has set
    [STARTED] by the time the wrapper tests [_state !== NOT_STARTED]: on
    every activation of a run-once task, the first included, the wrapper
    calls back without the body.  Over any number of activations the
    body runs zero times. *)
Theorem runOnce_body_never_runs r cs : forall w t,
  guzzleTasks w !! r = Some t ->
  findGuzzleTask w (_name t) = Some r ->
  _runOnce t = true ->
  exists w', activations r cs w = Some (w', 0).
Proof.
  induction cs as [|c cs IH]; intros w t Hr Hf Hone.
  - exists w. done.
  - destruct (activation_runOnce r c w t Hr Hf Hone)
      as (w1 & t1 & Hact & Hr1 & Hn1 & Hone1 & Hf1).
    destruct (IH w1 t1 Hr1 Hf1 Hone1) as (w2 & Hrest).
    exists w2. cbn [activations]. rewrite Hact. simpl. rewrite Hrest. done.
Qed.

(** ** The completion wrapper *)

Lemma run_action_cleared_stays w a this t :
  guzzleTasks w !! this = Some t -> _stream t = None ->
  exists t', guzzleTasks (run_action w a) !! this = Some t' /\ _stream t' = None.
Proof.
  intros Hr Hs. destruct a as [s | t0]; simpl.
  - exists t. done.
  - destruct (decide (t0 = this)) as [-> | Hne].
    + exists (set_stream None t). by rewrite list_lookup_alter_eq, Hr.
    + exists t. by rewrite list_lookup_alter_ne.
Qed.

Lemma foldl_run_action_cleared_stays acts : forall w this t,
  guzzleTasks w !! this = Some t -> _stream t = None ->
  exists t', guzzleTasks (foldl run_action w acts) !! this = Some t' /\
    _stream t' = None.
Proof.
  induction acts as [|a acts IH]; intros w this t Hr Hs; simpl.
  - exists t. done.
  - destruct (run_action_cleared_stays w a this t Hr Hs) as (t' & Hr' & Hs').
    by apply (IH _ _ t').
Qed.

Lemma run_action_keeps_task w a this t :
  guzzleTasks w !! this = Some t ->
  exists t', guzzleTasks (run_action w a) !! this = Some t'.
Proof.
  intros Hr. destruct a as [s | t0]; simpl; [eauto |].
  destruct (decide (t0 = this)) as [-> | Hne].
  - rewrite list_lookup_alter_eq, Hr. simpl. eauto.
  - rewrite list_lookup_alter_ne by done. eauto.
Qed.

(** When one of the listeners that fire resets the stream of [this], the
    field is empty once all of them have run. *)
Lemma foldl_run_action_clears acts : forall w this t,
  guzzleTasks w !! this = Some t ->
  ClearStream this ∈ acts ->
  exists t', guzzleTasks (foldl run_action w acts) !! this = Some t' /\
    _stream t' = None.
Proof.
  induction acts as [|a acts IH]; intros w this t Hr Hin; simpl.
  - by apply elem_of_nil in Hin.
  - apply elem_of_cons in Hin as [<- | Hin].
    + apply (foldl_run_action_cleared_stays acts _ this (set_stream None t)).
      * simpl. by rewrite list_lookup_alter_eq, Hr.
      * done.
    + destruct (run_action_keeps_task w a this t Hr) as (t' & Hr').
      by apply (IH _ _ t').
Qed.

(** C8.  When the wrapper runs the body: if the task holds a stream
    once the body has returned, the wrapper returns that stream, whatever
    the body returned, after adding to it a listener for [finish] and one
    for [end]; each of the two events then leaves the stream field of
    the task empty.  If the task holds no stream, the wrapper returns
    what the body returned. *)
Theorem wrapper_prefers_stream fn this w t w1 result t1 :
  guzzleTasks w !! this = Some t ->
  _runOnce t = false \/ _state t = NOT_STARTED ->
  body fn this w = (w1, result) ->
  guzzleTasks w1 !! this = Some t1 ->
  match _stream t1 with
  | Some s =>
      exists w', onDoneFunction_call fn this w = Some (w', BodyRan (RetStream s)) /\
        guzzleTasks w' = guzzleTasks w1 /\
        (forall x, streams w1 !! s = Some x ->
           streams w' !! s
           = Some (mkStream (paused x)
                     (listeners x ++ [("finish", ClearStream this);
                                      ("end", ClearStream this)])) /\
           forall ev, ev = "finish" \/ ev = "end" ->
             _stream <$> guzzleTasks (emit s ev w') !! this = Some None)
  | None =>
      onDoneFunction_call fn this w = Some (w1, BodyRan (RetValue result))
  end.
Proof.
  intros Hr Hguard Hbody Hr1.
  assert (Hrun : onDoneFunction_call fn this w
                 = match _stream t1 with
                   | Some s =>
                       Some (stream_on s "end" (ClearStream this)
                               (stream_on s "finish" (ClearStream this) w1),
                             BodyRan (RetStream s))
                   | None => Some (w1, BodyRan (RetValue result))
                   end).
  { unfold onDoneFunction_call. rewrite Hr. simpl.
    replace (_runOnce t && negb (bool_decide (_state t = NOT_STARTED)))
      with false.
    - rewrite Hbody, Hr1. simpl. by destruct (_stream t1).
    - destruct Hguard as [-> | ->]; [done |]. by rewrite andb_false_r. }
  destruct (_stream t1) as [s|] eqn:Hs; [| exact Hrun].
  eexists. split; [exact Hrun |]. split; [reflexivity |].
  intros x Hx.
  assert (Hx' : streams (stream_on s "end" (ClearStream this)
                           (stream_on s "finish" (ClearStream this) w1)) !! s
                = Some (mkStream (paused x)
                          (listeners x ++ [("finish", ClearStream this);
                                           ("end", ClearStream this)]))).
  { simpl. rewrite !list_lookup_alter_eq, Hx. simpl. by rewrite <- app_assoc. }
  split; [exact Hx' |].
  intros ev Hev. unfold emit, listeners_for. rewrite Hx'. cbn [listeners].
  edestruct (foldl_run_action_clears
               (map snd (filter (fun l : string * Action => fst l = ev)
                           (listeners x ++ [("finish", ClearStream this);
                                            ("end", ClearStream this)])))
               (stream_on s "end" (ClearStream this)
                  (stream_on s "finish" (ClearStream this) w1)) this t1)
    as (t' & Hr' & Hs').
  - exact Hr1.
  - apply (list_elem_of_fmap_2' snd _ (ev, ClearStream this)); [| done].
    apply list_elem_of_filter. split; [done |].
    apply elem_of_app. right.
    destruct Hev as [-> | ->]; [left | right; left].
  - rewrite Hr'. simpl. by rewrite Hs'.
Qed.

(** ** The elapsed time of the console reporter *)

Lemma append_not_empty (a b : string) :
  b <> EmptyString -> a +:+ b <> EmptyString.
Proof. intros Hb. destruct a; simpl; [done | discriminate]. Qed.

Lemma append_assoc (a b c : string) : (a +:+ b) +:+ c = a +:+ b +:+ c.
Proof.
  induction a as [|x a IH]; [reflexivity |].
  change (String x ((a +:+ b) +:+ c) = String x (a +:+ b +:+ c)).
  by rewrite IH.
Qed.

Lemma elapsed_text_not_empty elapsed : elapsed_text elapsed <> EmptyString.
Proof.
  unfold elapsed_text.
  destruct (decide (1000 < elapsed)%Z); by apply append_not_empty.
Qed.

(** The text tested by [elapsed ? ... : ''] is never empty, so the
    styled branch is the one taken. *)
Lemma elapsed_suffix_styled now t :
  elapsed_suffix now t
  = blackBright clc ("(" +:+ elapsed_text (elapsed_ms now t) +:+ ")").
Proof.
  unfold elapsed_suffix.
  pose proof (elapsed_text_not_empty (elapsed_ms now t)) as H.
  by destruct (elapsed_text (elapsed_ms now t)).
Qed.

Lemma round_div100_nearest elapsed :
  (elapsed - 50 < 100 * round_div100 elapsed <= elapsed + 50)%Z.
Proof.
  unfold round_div100.
  pose proof (Z.div_mod (elapsed + 50) 100 ltac:(lia)) as Hdm.
  pose proof (Z.mod_pos_bound (elapsed + 50) 100 ltac:(lia)) as Hb.
  lia.
Qed.

(** C9, amended.  For a task that has started, with an [_ended] stamp
    that (when there is one) is not earlier than [_started], the elapsed
    time is [_ended - _started] when the stamp is there and
    [now - _started] when it is not.  The suffix is that number followed
    by [ms] as long as it is at most 1000, and beyond 1000 the number of
    seconds rounded to the nearest tenth followed by [s], written without
    a fraction when the tenth is zero and with one digit otherwise. *)
Theorem elapsed_suffix_of_started_task now t started :
  _started t = Some started ->
  match _ended t with Some ended => (started <= ended)%Z | None => True end ->
  let elapsed := (default now (_ended t) - started)%Z in
  let tenths := round_div100 elapsed in
  elapsed_ms now t = elapsed /\
  elapsed_suffix now t
  = blackBright clc
      ("(" +:+ (if decide (elapsed <= 1000)%Z then string_of_Z elapsed +:+ "ms"
                else if decide (tenths mod 10 = 0)%Z
                     then string_of_Z (tenths / 10) +:+ "s"
                     else string_of_Z (tenths / 10) +:+ "."
                            +:+ string_of_Z (tenths mod 10) +:+ "s")
           +:+ ")") /\
  (elapsed - 50 < 100 * tenths <= elapsed + 50)%Z.
Proof.
  intros Hst _ elapsed tenths.
  assert (He : elapsed_ms now t = elapsed).
  { unfold elapsed_ms. by rewrite Hst. }
  split; [exact He |]. split; [| apply round_div100_nearest].
  rewrite elapsed_suffix_styled, He. unfold elapsed_text, tenths_text.
  fold tenths.
  destruct (decide (1000 < elapsed)%Z), (decide (elapsed <= 1000)%Z);
    try lia; [| done].
  destruct (decide (tenths mod 10 = 0)%Z); [done |].
  by rewrite !append_assoc.
Qed.

(** ** Further properties of the handlers *)

Lemma findGuzzleTask_Some w n r :
  findGuzzleTask w n = Some r ->
  exists t, guzzleTasks w !! r = Some t /\ _name t = n.
Proof.
  unfold findGuzzleTask, find_by_name. intros H.
  destruct (list_find (fun t => _name t = n) (guzzleTasks w)) as [[r' t]|] eqn:Hf;
    [| done].
  simpl in H. injection H as ->.
  apply list_find_Some in Hf as (Hr & Hn & _). eauto.
Qed.

Lemma print_if_pretty_frame w :
  guzzleTasks (print_if_pretty w) = guzzleTasks w /\
  streams (print_if_pretty w) = streams w /\
  gulpTasks (print_if_pretty w) = gulpTasks w /\
  vizInput (print_if_pretty w) = vizInput w /\
  graphFilename (print_if_pretty w) = graphFilename w /\
  gulpStarted (print_if_pretty w) = gulpStarted w /\
  ticks w <= ticks (print_if_pretty w).
Proof. unfold print_if_pretty. destruct prettyPrint; simpl; repeat split; lia. Qed.

Lemma deliver_unknown_name sig taskName w :
  findGuzzleTask w taskName = None -> deliver sig taskName w = None.
Proof.
  intros Hf. destruct sig; simpl;
    unfold on_task_start, on_task_stop, on_task_err; by rewrite Hf.
Qed.

(** X10.  A lifecycle signal raises (a [TypeError]) exactly when no
    guzzle task carries the name of the event, as for a task given to
    gulp directly. *)
Theorem deliver_fails_iff_unknown sig taskName w :
  deliver sig taskName w = None <-> findGuzzleTask w taskName = None.
Proof.
  split.
  - intros Hnone. destruct (findGuzzleTask w taskName) as [r|] eqn:Hf; [| done].
    destruct (findGuzzleTask_Some _ _ _ Hf) as (t & Hr & <-).
    destruct (deliver_spec sig w r t Hr Hf) as (w' & t' & Hdel & _).
    congruence.
  - intros Hf. destruct sig; simpl;
      unfold on_task_start, on_task_stop, on_task_err; by rewrite Hf.
Qed.

Lemma deliver_touches_one_task sig taskName w w' r :
  findGuzzleTask w taskName = Some r ->
  deliver sig taskName w = Some w' ->
  (forall j, j <> r -> guzzleTasks w' !! j = guzzleTasks w !! j) /\
  length (guzzleTasks w') = length (guzzleTasks w) /\
  streams w' = streams w /\ gulpTasks w' = gulpTasks w /\
  vizInput w' = vizInput w /\ graphFilename w' = graphFilename w /\
  gulpStarted w' = gulpStarted w /\
  exists t t', guzzleTasks w !! r = Some t /\ guzzleTasks w' !! r = Some t' /\
    _name t' = _name t /\ _stream t' = _stream t /\
    _dependencies t' = _dependencies t /\ _runOnce t' = _runOnce t /\
    _onDoneFunction t' = _onDoneFunction t.
Proof.
  intros Hf Hdel.
  destruct (findGuzzleTask_Some _ _ _ Hf) as (t & Hr & Hn).
  assert (Hlt : r < length (guzzleTasks w)) by (by apply lookup_lt_Some in Hr).
  assert (Hupd : forall w0 t0,
            guzzleTasks w0 = <[r := t0]> (guzzleTasks w) ->
            (forall j, j <> r -> guzzleTasks w0 !! j = guzzleTasks w !! j) /\
            length (guzzleTasks w0) = length (guzzleTasks w) /\
            guzzleTasks w0 !! r = Some t0).
  { intros w0 t0 E. rewrite E. split; [| split].
    - intros j Hj. by apply list_lookup_insert_ne.
    - apply length_insert.
    - by apply list_lookup_insert_eq. }
  destruct sig; simpl in Hdel.
  - unfold on_task_start in Hdel. rewrite Hf in Hdel. simpl in Hdel.
    injection Hdel as <-.
    match goal with |- context [print_if_pretty ?x] =>
      destruct (print_if_pretty_frame x) as (-> & -> & -> & -> & -> & -> & _)
    end.
    simpl. rewrite list_alter_alter_eq, (alter_as_insert _ _ _ _ Hr).
    destruct (Hupd (set_guzzleTasks
                      (<[r := set_started (Some (clock (ticks w)))
                                 (set_state STARTED t)]> (guzzleTasks w)) w)
                   _ eq_refl) as (H1 & H2 & H3).
    simpl in H1, H2, H3. repeat (split; [done |]).
    eexists t, _. split; [done |]. split; [exact H3 |]. done.
  - unfold on_task_stop in Hdel. rewrite Hf in Hdel. simpl in Hdel.
    rewrite Hr in Hdel. simpl in Hdel.
    destruct (decide (_state t = DONE)).
    + injection Hdel as <-. repeat (split; [done |]). exists t, t. done.
    + injection Hdel as <-.
      match goal with |- context [print_if_pretty ?x] =>
        destruct (print_if_pretty_frame x) as (-> & -> & -> & -> & -> & -> & _)
      end.
      simpl. rewrite list_alter_alter_eq, (alter_as_insert _ _ _ _ Hr).
      destruct (Hupd (set_guzzleTasks
                        (<[r := set_ended (Some (clock (ticks w)))
                                   (set_state DONE t)]> (guzzleTasks w)) w)
                     _ eq_refl) as (H1 & H2 & H3).
      simpl in H1, H2, H3. repeat (split; [done |]).
      eexists t, _. split; [done |]. split; [exact H3 |]. done.
  - unfold on_task_err in Hdel. rewrite Hf in Hdel. simpl in Hdel.
    injection Hdel as <-.
    match goal with |- context [print_if_pretty ?x] =>
      destruct (print_if_pretty_frame x) as (-> & -> & -> & -> & -> & -> & _)
    end.
    simpl. rewrite (alter_as_insert _ _ _ _ Hr).
    destruct (Hupd (set_guzzleTasks
                      (<[r := set_state ERROR t]> (guzzleTasks w)) w)
                   _ eq_refl) as (H1 & H2 & H3).
    simpl in H1, H2, H3. repeat (split; [done |]).
    eexists t, _. split; [done |]. split; [exact H3 |]. done.
Qed.

(** X11.  A signal touches the task found under the name and nothing
    else: every other task, every stream, the registrations, the graph
    settings and the renderer input are as before, and of the task itself
    the name, the stream, the entries, the flag and the body are kept. *)
Theorem deliver_frame sig taskName w w' r :
  findGuzzleTask w taskName = Some r ->
  deliver sig taskName w = Some w' ->
  (forall j, j <> r -> guzzleTasks w' !! j = guzzleTasks w !! j) /\
  length (guzzleTasks w') = length (guzzleTasks w) /\
  streams w' = streams w /\ gulpTasks w' = gulpTasks w /\
  vizInput w' = vizInput w /\ graphFilename w' = graphFilename w /\
  gulpStarted w' = gulpStarted w /\
  exists t t', guzzleTasks w !! r = Some t /\ guzzleTasks w' !! r = Some t' /\
    _name t' = _name t /\ _stream t' = _stream t /\
    _dependencies t' = _dependencies t /\ _runOnce t' = _runOnce t /\
    _onDoneFunction t' = _onDoneFunction t.
Proof. apply deliver_touches_one_task. Qed.

Lemma on_task_start_stamp taskName w r t :
  findGuzzleTask w taskName = Some r ->
  guzzleTasks w !! r = Some t ->
  exists w', on_task_start taskName w = Some w' /\
    guzzleTasks w' !! r
    = Some (set_started (Some (clock (ticks w))) (set_state STARTED t)) /\
    ticks w < ticks w'.
Proof.
  intros Hf Hr. unfold on_task_start. rewrite Hf. simpl.
  eexists. split; [reflexivity |].
  match goal with |- context [print_if_pretty ?x] =>
    destruct (print_if_pretty_frame x) as (-> & _ & _ & _ & _ & _ & Ht)
  end.
  simpl in *. split; [| lia].
  by rewrite !list_lookup_alter_eq, Hr.
Qed.

Lemma on_task_stop_stamp taskName w r t :
  findGuzzleTask w taskName = Some r ->
  guzzleTasks w !! r = Some t ->
  _state t <> DONE ->
  exists w', on_task_stop taskName w = Some w' /\
    guzzleTasks w' !! r
    = Some (set_ended (Some (clock (ticks w))) (set_state DONE t)) /\
    ticks w < ticks w'.
Proof.
  intros Hf Hr Hs. unfold on_task_stop. rewrite Hf. simpl. rewrite Hr. simpl.
  destruct (decide (_state t = DONE)); [done |].
  eexists. split; [reflexivity |].
  match goal with |- context [print_if_pretty ?x] =>
    destruct (print_if_pretty_frame x) as (-> & _ & _ & _ & _ & _ & Ht)
  end.
  simpl in *. split; [| lia].
  by rewrite !list_lookup_alter_eq, Hr.
Qed.

(** X12.  The start handler does not reset [_ended].  After a start, a
    stop and a second start the task is [STARTED] again and still holds
    the stamp of the stop, which a clock that does not run backwards puts
    at or before the second [_started]; the reporter then computes an
    elapsed time that is not positive and does not depend on the current
    time. *)
Theorem restart_keeps_stale_ended r t w :
  monotone clock ->
  guzzleTasks w !! r = Some t ->
  findGuzzleTask w (_name t) = Some r ->
  exists w1 w2 w3 t3 started ended,
    deliver SigStart (_name t) w = Some w1 /\
    deliver SigStop (_name t) w1 = Some w2 /\
    deliver SigStart (_name t) w2 = Some w3 /\
    guzzleTasks w3 !! r = Some t3 /\ _state t3 = STARTED /\
    _started t3 = Some started /\ _ended t3 = Some ended /\
    (ended <= started)%Z /\
    forall now, elapsed_ms now t3 = (ended - started)%Z /\
                (elapsed_ms now t3 <= 0)%Z.
Proof.
  intros Hmono Hr Hf.
  assert (Hfind : forall w0 w0' t0,
            guzzleTasks w0 !! r = Some t0 -> _name t0 = _name t ->
            findGuzzleTask w0 (_name t) = Some r ->
            forall sig, deliver sig (_name t) w0 = Some w0' ->
            findGuzzleTask w0' (_name t) = Some r).
  { intros w0 w0' t0 Hr0 Hn0 Hf0 sig Hdel. rewrite <- Hn0 in Hf0, Hdel.
    destruct (deliver_spec sig w0 r t0 Hr0 Hf0) as (w0'' & t0' & Hdel' & _ & _ & _ & _ & _ & Hf').
    rewrite Hdel in Hdel'. injection Hdel' as <-. by rewrite <- Hn0. }
  destruct (on_task_start_stamp _ w r t Hf Hr) as (w1 & H1 & Hr1 & Ht1).
  pose proof (Hfind w w1 t Hr eq_refl Hf SigStart H1) as Hf1.
  destruct (on_task_stop_stamp _ w1 r _ Hf1 Hr1) as (w2 & H2 & Hr2 & Ht2);
    [done |].
  pose proof (Hfind w1 w2 _ Hr1 eq_refl Hf1 SigStop H2) as Hf2.
  destruct (on_task_start_stamp _ w2 r _ Hf2 Hr2) as (w3 & H3 & Hr3 & Ht3).
  exists w1, w2, w3. eexists. exists (clock (ticks w2)), (clock (ticks w1)).
  split; [exact H1 |]. split; [exact H2 |]. split; [exact H3 |].
  split; [exact Hr3 |]. split; [done |]. split; [done |]. split; [done |].
  assert (Hle : (clock (ticks w1) <= clock (ticks w2))%Z)
    by (apply Hmono; lia).
  split; [done |]. intros now. unfold elapsed_ms. simpl. lia.
Qed.

(** X13.  The test [elapsed ? ... : ''] is made on the formatted text,
    which is never empty: a task that never started is printed with the
    suffix of zero milliseconds. *)
Theorem never_started_suffix now t :
  _started t = None ->
  elapsed_suffix now t = blackBright clc "(0ms)" /\
  task_line now t
  = stateSymbols (_state t) +:+ " " +:+ _name t +:+ " "
      +:+ blackBright clc "(0ms)".
Proof.
  intros Hs.
  assert (H : elapsed_suffix now t = blackBright clc "(0ms)").
  { rewrite elapsed_suffix_styled. unfold elapsed_ms. by rewrite Hs. }
  split; [exact H |]. unfold task_line. by rewrite H.
Qed.

(** ** A task without the run-once flag under the scheduler *)

Lemma skeleton_lookup (ts ts' : list GuzzleTask) r t :
  map skeleton ts' = map skeleton ts ->
  ts !! r = Some t ->
  exists t', ts' !! r = Some t' /\ skeleton t' = skeleton t.
Proof.
  intros E Hr.
  assert (H : skeleton <$> ts' !! r = Some (skeleton t)).
  { rewrite <- list_lookup_fmap. change (skeleton <$> ts') with (map skeleton ts').
    rewrite E. change (map skeleton ts) with (skeleton <$> ts).
    by rewrite list_lookup_fmap, Hr. }
  destruct (ts' !! r) as [t'|]; [| done].
  exists t'. split; [done |]. simpl in H. congruence.
Qed.

Lemma skeleton_names (ts ts' : list GuzzleTask) :
  map skeleton ts' = map skeleton ts -> map _name ts' = map _name ts.
Proof.
  intros E.
  assert (H : forall l : list GuzzleTask,
            map _name l = map (fun p => fst (fst p)) (map skeleton l)).
  { intros l. rewrite map_map. by apply map_ext. }
  by rewrite !H, E.
Qed.

Lemma activation_plain r c w t fn :
  (forall f this w0,
     map skeleton (guzzleTasks (fst (body f this w0)))
     = map skeleton (guzzleTasks w0)) ->
  guzzleTasks w !! r = Some t ->
  findGuzzleTask w (_name t) = Some r ->
  _runOnce t = false -> _onDoneFunction t = Some fn ->
  exists w' t', activation r c w = Some (w', true) /\
    guzzleTasks w' !! r = Some t' /\ skeleton t' = skeleton t /\
    findGuzzleTask w' (_name t') = Some r.
Proof.
  intros Hbody Hr Hf Hone Hfn.
  destruct (deliver_spec SigStart w r t Hr Hf)
    as (w1 & t1 & Hstart & Hr1 & _ & Hn1 & Hone1 & Hfn1 & Hf1).
  simpl in Hstart. rewrite Hone in Hone1. rewrite Hfn in Hfn1.
  destruct (body fn r w1) as [wb res] eqn:Hb.
  pose proof (Hbody fn r w1) as Hsk. rewrite Hb in Hsk. simpl in Hsk.
  destruct (skeleton_lookup _ _ r t1 Hsk Hr1) as (tb & Hrb & Hskb).
  assert (Hnb : _name tb = _name t) by (unfold skeleton in Hskb; congruence).
  assert (Hcall : exists w2 ret,
            call_task_fn r w1 = Some (w2, BodyRan ret) /\
            guzzleTasks w2 = guzzleTasks wb).
  { unfold call_task_fn. rewrite Hr1. simpl. rewrite Hfn1.
    unfold onDoneFunction_call. rewrite Hr1. simpl. rewrite Hone1. simpl.
    rewrite Hb, Hrb. simpl.
    destruct (_stream tb); eexists _, _; split; reflexivity. }
  destruct Hcall as (w2 & ret & Hcall & Hts2).
  assert (Hr2 : guzzleTasks w2 !! r = Some tb) by (by rewrite Hts2).
  assert (Hf2 : findGuzzleTask w2 (_name tb) = Some r).
  { rewrite Hnb, <- Hf1. apply findGuzzleTask_names.
    rewrite Hts2. by apply skeleton_names. }
  assert (Hskt : skeleton tb = skeleton t).
  { rewrite Hskb. unfold skeleton. congruence. }
  assert (Hend : exists w3 t3,
            match c with
            | Stops => on_task_stop (_name t) w2
            | Fails => on_task_err (_name t) w2
            | Hangs => Some w2
            end = Some w3 /\
            guzzleTasks w3 !! r = Some t3 /\ skeleton t3 = skeleton t /\
            findGuzzleTask w3 (_name t3) = Some r).
  { destruct c.
    - destruct (deliver_spec SigStop w2 r tb Hr2 Hf2)
        as (w3 & t3 & Hd & Hr3 & _ & Hn3 & Ho3 & Hfn3 & Hf3).
      simpl in Hd. rewrite Hnb in Hd. exists w3, t3. split; [done |].
      split; [done |]. split; [| by rewrite Hn3].
      rewrite <- Hskt. unfold skeleton. congruence.
    - destruct (deliver_spec SigErr w2 r tb Hr2 Hf2)
        as (w3 & t3 & Hd & Hr3 & _ & Hn3 & Ho3 & Hfn3 & Hf3).
      simpl in Hd. rewrite Hnb in Hd. exists w3, t3. split; [done |].
      split; [done |]. split; [| by rewrite Hn3].
      rewrite <- Hskt. unfold skeleton. congruence.
    - exists w2, tb. done. }
  destruct Hend as (w3 & t3 & Hend & Hr3 & Hsk3 & Hf3).
  exists w3, t3. split; [| done].
  unfold activation. rewrite Hr. simpl. rewrite Hstart. simpl.
  rewrite Hcall. simpl. destruct c; rewrite Hend; done.
Qed.

(** X14.  A task declared without the run-once flag has its body run on
    every activation, however the runs end, as long as the bodies leave
    the names, the flags and the bodies of the declared tasks alone. *)
Theorem plain_task_body_runs_every_time r cs : forall w t fn,
  (forall f this w0,
     map skeleton (guzzleTasks (fst (body f this w0)))
     = map skeleton (guzzleTasks w0)) ->
  guzzleTasks w !! r = Some t ->
  findGuzzleTask w (_name t) = Some r ->
  _runOnce t = false -> _onDoneFunction t = Some fn ->
  exists w', activations r cs w = Some (w', length cs).
Proof.
  induction cs as [|c cs IH]; intros w t fn Hbody Hr Hf Hone Hfn.
  - exists w. done.
  - destruct (activation_plain r c w t fn Hbody Hr Hf Hone Hfn)
      as (w1 & t1 & Hact & Hr1 & Hsk & Hf1).
    unfold skeleton in Hsk.
    destruct (IH w1 t1 fn Hbody Hr1 Hf1) as (w2 & Hrest); [congruence.. |].
    exists w2. cbn [activations length]. rewrite Hact. simpl. rewrite Hrest. done.
Qed.

(** X18.  The handlers look a task up by its name and take the first:
    a task whose name is also carried by an earlier task is never
    reached.  Whatever signals arrive under that name, all of them are
    handled and the later task stays exactly as it is. *)
Theorem shadowed_task_never_changes sigs : forall taskName w r0 r,
  findGuzzleTask w taskName = Some r0 ->
  r <> r0 ->
  exists w', deliver_all sigs taskName w = Some w' /\
    guzzleTasks w' !! r = guzzleTasks w !! r /\
    findGuzzleTask w' taskName = Some r0.
Proof.
  induction sigs as [|sig sigs IH]; intros taskName w r0 r Hf Hne.
  - exists w. done.
  - destruct (findGuzzleTask_Some _ _ _ Hf) as (t0 & Hr0 & Hn0).
    rewrite <- Hn0 in Hf.
    destruct (deliver_spec sig w r0 t0 Hr0 Hf)
      as (w1 & t1 & Hdel & _ & _ & _ & _ & _ & Hf1).
    rewrite Hn0 in Hf, Hdel, Hf1.
    destruct (deliver_touches_one_task sig taskName w w1 r0 Hf Hdel) as (Hother & _).
    destruct (IH taskName w1 r0 r Hf1 Hne) as (w' & Hrun & Hsame & Hf').
    exists w'. split; [| split; [| done]].
    + cbn [deliver_all]. rewrite Hdel. exact Hrun.
    + rewrite Hsame. by apply Hother.
Qed.

(** X19.  The handlers keep the stamps in step with the states: when
    every task in [STARTED] has a start stamp and every task in [DONE]
    an end stamp, the same holds after any signal. *)
Theorem deliver_keeps_stamps sig taskName w w' :
  Forall stamps_ok (guzzleTasks w) ->
  deliver sig taskName w = Some w' ->
  Forall stamps_ok (guzzleTasks w').
Proof.
  intros Hall Hdel.
  destruct (findGuzzleTask w taskName) as [r|] eqn:Hf.
  2: { apply (deliver_unknown_name sig) in Hf. congruence. }
  destruct (findGuzzleTask_Some _ _ _ Hf) as (t & Hr & Hn).
  assert (Ht : stamps_ok t).
  { rewrite Forall_forall in Hall. apply Hall.
    apply list_elem_of_lookup. eauto. }
  assert (Hins : forall t', stamps_ok t' ->
            Forall stamps_ok (<[r := t']> (guzzleTasks w))).
  { intros t' Ht'. by apply Forall_insert. }
  destruct sig; simpl in Hdel.
  - destruct (on_task_start_spec _ _ _ _ Hf Hr) as (w1 & Hrun & Hts & _).
    rewrite Hdel in Hrun. injection Hrun as <-. rewrite Hts.
    apply Hins. split; simpl; [eauto | done].
  - destruct (decide (_state t = DONE)) as [Hd | Hnd].
    + rewrite (on_task_stop_done _ _ _ _ Hf Hr Hd) in Hdel.
      by injection Hdel as <-.
    + destruct (on_task_stop_spec _ _ _ _ Hf Hr Hnd) as (w1 & Hrun & Hts & _).
      rewrite Hdel in Hrun. injection Hrun as <-. rewrite Hts.
      apply Hins. split; simpl; [done | eauto].
  - destruct (on_task_err_spec _ _ _ _ Hf Hr) as (w1 & Hrun & Hts & _).
    rewrite Hdel in Hrun. injection Hrun as <-. rewrite Hts.
    apply Hins. split; simpl; done.
Qed.

End Guzzle.

(** ** The properties above on concrete tasks *)

Lemma stop_signal_idempotent_witness :
  let t := mkTask "t" None (Some 0%Z) None STARTED false [] (Some 0) in
  let w := set_ticks 1 (set_guzzleTasks [t] world0) in
  exists w', on_task_stop clock_1s plain false "t" w = Some w' /\
    (_state t = DONE -> w' = w) /\
    (_state t <> DONE ->
       guzzleTasks w'
       = <[0 := set_ended (Some (clock_1s (ticks w))) (set_state DONE t)]>
           (guzzleTasks w)) /\
    on_task_stop clock_1s plain false "t" w' = Some w'.
Proof.
  intros t w.
  apply (stop_signal_idempotent clock_1s plain false "t" w 0 t); reflexivity.
Defined.


(** The handlers by themselves also take a task that never started
    straight to [ERROR]. *)
Example error_signal_from_NOT_STARTED :
  let w := fst (task "t" (ArgBody 0) false world0) in
  (snd <$> run_signals clock_1s plain false 0 [SigErr] w)
  = Some [(NOT_STARTED, ERROR)].
Proof. reflexivity. Qed.


(** A task declared with [taskOnce]: three activations, no run of the
    body, the first activation included. *)
Lemma runOnce_body_never_runs_witness :
  let w := fst (taskOnce "once" (ArgBody 0) world0) in
  exists w',
    activations clock_1s plain false idle_body 0 [Stops; Stops; Stops] w
    = Some (w', 0).
Proof.
  intros w.
  apply (runOnce_body_never_runs clock_1s plain false idle_body 0
           [Stops; Stops; Stops] w
           (mkTask "once" None None None NOT_STARTED true [] (Some 0)));
    reflexivity.
Defined.

Example runOnce_first_activation :
  let w := fst (taskOnce "once" (ArgBody 0) world0) in
  (snd <$> activation clock_1s plain false idle_body 0 Stops w) = Some false.
Proof. reflexivity. Qed.

(** The same body under [task] runs on each activation. *)
Example task_body_runs_each_time :
  let w := fst (task "many" (ArgBody 0) false world0) in
  (snd <$> activations clock_1s plain false idle_body 0 [Stops; Stops; Stops] w)
  = Some 3.
Proof. reflexivity. Qed.

(** Reached in [NOT_STARTED], with no start signal before it, the
    wrapper of a run-once task does run the body. *)
Example runOnce_wrapper_before_any_signal :
  let w := fst (taskOnce "once" (ArgBody 0) world0) in
  (snd <$> onDoneFunction_call idle_body 0 0 w)
  = Some (BodyRan (RetValue JsUndefined)).
Proof. reflexivity. Qed.

Lemma wrapper_prefers_stream_witness :
  let w := fst (task "t" (ArgBody 0) false world0) in
  let w1 := fst (reading_body 0 0 w) in
  exists w',
    onDoneFunction_call reading_body 0 0 w = Some (w', BodyRan (RetStream 0)) /\
    guzzleTasks w' = guzzleTasks w1 /\
    (forall x, streams w1 !! 0 = Some x ->
       streams w' !! 0
       = Some (mkStream (paused x)
                 (listeners x ++ [("finish", ClearStream 0);
                                  ("end", ClearStream 0)])) /\
       forall ev, ev = "finish" \/ ev = "end" ->
         _stream <$> guzzleTasks (emit 0 ev w') !! 0 = Some None).
Proof.
  intros w w1.
  apply (wrapper_prefers_stream reading_body 0 0 w
           (mkTask "t" None None None NOT_STARTED false [] (Some 0))
           w1 (JsPromise 0)
           (mkTask "t" (Some 0) None None NOT_STARTED false [] (Some 0)));
    [reflexivity | left; reflexivity | reflexivity | reflexivity].
Defined.

(** At exactly one second the suffix is still in milliseconds, and just
    above it the seconds come without a decimal place. *)
Lemma elapsed_suffix_at_one_second :
  let t := mkTask "t" None (Some 0%Z) (Some 1000%Z) DONE false [] (Some 0) in
  let t' := mkTask "t" None (Some 0%Z) (Some 1001%Z) DONE false [] (Some 0) in
  elapsed_suffix plain 0 t = "(1000ms)" /\
  spec_elapsed_suffix plain 0 t = "(1.0s)" /\
  elapsed_suffix plain 0 t <> spec_elapsed_suffix plain 0 t /\
  elapsed_suffix plain 0 t' = "(1s)" /\
  spec_elapsed_suffix plain 0 t' = "(1.0s)".
Proof.
  intros t t'. repeat split; try reflexivity. vm_compute. discriminate.
Qed.

(** A task that never started gets the suffix of zero milliseconds. *)
Example elapsed_suffix_never_started :
  let t := mkTask "t" None None None NOT_STARTED false [] (Some 0) in
  elapsed_suffix plain 5000 t = "(0ms)" /\
  task_line plain 5000 t = "- t (0ms)".
Proof. split; reflexivity. Qed.

(** On a later activation the stamp of the earlier stop is still there. *)
Example elapsed_suffix_stale_ended :
  (_ended <$> ((fst <$>
      activations clock_1s plain false idle_body 0 [Stops; Hangs]
        (fst (task "t" (ArgBody 0) false world0)))
     ≫= fun w => guzzleTasks w !! 0))
  = Some (Some 1000%Z) /\
  elapsed_suffix plain 9000
    (mkTask "t" None (Some 2000%Z) (Some 1000%Z) STARTED false [] (Some 0))
  = "(-1000ms)".
Proof. split; reflexivity. Qed.

Lemma elapsed_suffix_of_started_task_witness :
  let t := mkTask "t" None (Some 1000%Z) (Some 2250%Z) DONE false [] (Some 0) in
  elapsed_ms 0 t = 1250%Z /\
  elapsed_suffix plain 0 t = "(1.3s)" /\
  (1250 - 50 < 100 * round_div100 1250 <= 1250 + 50)%Z.
Proof.
  intros t.
  apply (elapsed_suffix_of_started_task plain 0 t 1000%Z); [reflexivity |].
  simpl. lia.
Defined.


(** * Properties of the declarations, the resolution, the graph and the streams *)

(** ** Namespacing of sub-tasks *)

Lemma namespace_dep_length parent ts d :
  length (namespace_dep parent ts d) = length ts.
Proof. destruct d; simpl; [done | apply length_alter]. Qed.

Lemma foldl_namespace_dep_length parent ds : forall ts,
  length (foldl (namespace_dep parent) ts ds) = length ts.
Proof.
  induction ds as [|d ds IH]; intros ts; simpl; [done |].
  by rewrite IH, namespace_dep_length.
Qed.

(** The constructor's loop over the dependencies prefixes the name of an
    object once for each time the object is listed. *)
Lemma foldl_namespace_dep_lookup parent ds : forall (ts : list GuzzleTask) r t,
  ts !! r = Some t ->
  exists t', foldl (namespace_dep parent) ts ds !! r = Some t' /\
    _name t' = Nat.iter (occurrences r ds) (namespaced parent) (_name t) /\
    _state t' = _state t /\ _runOnce t' = _runOnce t /\
    _dependencies t' = _dependencies t /\
    _onDoneFunction t' = _onDoneFunction t.
Proof.
  induction ds as [|d ds IH]; intros ts r t Hr; simpl.
  - exists t. done.
  - destruct d as [s | r']; simpl.
    + by apply IH.
    + destruct (decide (r' = r)) as [-> | Hne].
      * edestruct (IH (alter (fun t => set_name (namespaced parent (_name t)) t) r ts) r)
          as (t' & Hl & Hn & Hrest).
        { rewrite list_lookup_alter_eq, Hr. reflexivity. }
        exists t'. split; [done |]. split; [| exact Hrest].
        rewrite Hn. simpl. clear.
        generalize (occurrences r ds) as n. intros n.
        induction n as [|n IHn]; simpl; [done |]. by rewrite IHn.
      * edestruct (IH (alter (fun t => set_name (namespaced parent (_name t)) t) r' ts) r)
          as (t' & Hl & Hn & Hrest).
        { rewrite list_lookup_alter_ne by done. exact Hr. }
        exists t'. done.
Qed.

Lemma new_GuzzleTask_lookup parent ds fn once w r t :
  guzzleTasks w !! r = Some t ->
  task_name (fst (new_GuzzleTask parent ds fn once w)) r
  = Some (Nat.iter (occurrences r ds) (namespaced parent) (_name t)).
Proof.
  intros Hr. unfold task_name, new_GuzzleTask. simpl.
  destruct (foldl_namespace_dep_lookup parent ds _ _ _ Hr) as (t' & Hl & Hn & _).
  rewrite lookup_app_l by (apply lookup_lt_Some in Hl; done).
  rewrite Hl. simpl. by rewrite Hn.
Qed.

(** The new object is pushed last and carries the name it was given. *)
Lemma new_GuzzleTask_this parent ds fn once w :
  let '(w', this) := new_GuzzleTask parent ds fn once w in
  this = length (guzzleTasks w) /\
  guzzleTasks w' !! this
  = Some (mkTask parent None None None NOT_STARTED once ds fn).
Proof.
  unfold new_GuzzleTask. simpl.
  rewrite foldl_namespace_dep_length. split; [done |].
  rewrite lookup_app_r by (rewrite foldl_namespace_dep_length; done).
  rewrite foldl_namespace_dep_length, Nat.sub_diag. done.
Qed.

Lemma new_GuzzleTask_renames_once parent ds fn once w r t :
  guzzleTasks w !! r = Some t ->
  occurrences r ds = 1 ->
  task_name (fst (new_GuzzleTask parent ds fn once w)) r
  = Some (namespaced parent (_name t)).
Proof.
  intros Hr Hocc. rewrite (new_GuzzleTask_lookup _ _ _ _ _ _ _ Hr), Hocc.
  reflexivity.
Qed.

(** The same object given twice in one array is prefixed twice. *)
Lemma subtask_listed_twice :
  let w := fst (task "css" (ArgBody 0) false world0) in
  task_name (fst (new_GuzzleTask "build" [DepTask 0; DepTask 0] None false w)) 0
  = Some "build.build.css" /\
  ~ spec_namespaced "build" [DepTask 0; DepTask 0] None false w.
Proof.
  intros w. split; [reflexivity |]. intros Hspec.
  specialize (Hspec 0 (mkTask "css" None None None NOT_STARTED false []
                              (Some 0)) eq_refl).
  assert (Hin : DepTask 0 ∈ [DepTask 0; DepTask 0]) by (by left).
  specialize (Hspec Hin). vm_compute in Hspec. discriminate.
Qed.

(** C6, amended.  The constructor visits the entries of the dependency
    array one by one, and each entry that is a task object has its name
    rewritten in place to the parent's name, a dot, and the name it has
    at that moment.  An object listed once ends up named by the parent's
    name, a dot, and the name it had before the declaration; an object
    listed several times carries the prefix once for each listing. *)
Theorem subtask_is_namespaced parent ds fn once w r t :
  guzzleTasks w !! r = Some t ->
  task_name (fst (new_GuzzleTask parent ds fn once w)) r
  = Some (Nat.iter (occurrences r ds) (namespaced parent) (_name t)) /\
  (occurrences r ds = 1 ->
   task_name (fst (new_GuzzleTask parent ds fn once w)) r
   = Some (parent +:+ "." +:+ _name t)).
Proof.
  intros Hr. split; [by apply new_GuzzleTask_lookup |].
  by apply new_GuzzleTask_renames_once.
Qed.

(** The example of the specification: local name [css] under [build]. *)
Lemma subtask_is_namespaced_witness :
  let w := fst (task "css" (ArgBody 0) false world0) in
  let w' := fst (task "build" (ArgSingle (Some (DepTask 0)) (Some 1)) false w) in
  task_name w' 0 = Some "build.css" /\
  (occurrences 0 [DepTask 0] = 1 -> task_name w' 0 = Some "build.css").
Proof.
  intros w w'.
  apply (subtask_is_namespaced "build" [DepTask 0] (Some 1) false w 0
           (mkTask "css" None None None NOT_STARTED false [] (Some 0))).
  reflexivity.
Defined.



(** ** Resolution of the dependency names *)

Lemma find_by_name_None ts n :
  find_by_name ts n = None <-> n ∉ map _name ts.
Proof.
  unfold find_by_name. rewrite list_find_None, Forall_forall. split.
  - intros H Hin. apply list_elem_of_fmap in Hin as (t & -> & Ht).
    by apply (H t).
  - intros H t Ht Hn. apply H. apply list_elem_of_fmap. eauto.
Qed.

Lemma find_by_name_names ts ts' n :
  map _name ts = map _name ts' ->
  find_by_name ts n = None <-> find_by_name ts' n = None.
Proof. intros E. by rewrite !find_by_name_None, E. Qed.

Lemma first_missing_names ts ts' ds :
  map _name ts = map _name ts' ->
  first_missing ts ds = first_missing ts' ds.
Proof.
  intros E. induction ds as [|[s|r] ds IH]; simpl; [done | | done].
  destruct (find_by_name ts s) eqn:H1, (find_by_name ts' s) eqn:H2; try done.
  - apply (find_by_name_names _ _ _ E) in H2. congruence.
  - apply (find_by_name_names _ _ _ E) in H1. congruence.
Qed.

(** The map over the dependencies throws exactly when an entry is
    missing, and then with the message of the first such entry. *)
Lemma resolve_deps_missing ts ds d :
  first_missing ts ds = Some d ->
  resolve_deps ts ds = inl (not_found_message d).
Proof.
  induction ds as [|[s|r] ds IH]; simpl; [done | |].
  - destruct (find_by_name ts s) as [[r t]|] eqn:Hf.
    + intros H. by rewrite (IH H).
    + by intros [= ->].
  - intros H. by rewrite (IH H).
Qed.

Lemma resolve_deps_complete ts ds :
  first_missing ts ds = None ->
  exists ds', resolve_deps ts ds = inr ds' /\ length ds' = length ds /\
    forall d, d ∈ ds' -> exists r, d = DepTask r.
Proof.
  induction ds as [|[s|r] ds IH]; simpl.
  - intros _. exists []. split; [done |]. split; [done |].
    intros d Hd. by apply elem_of_nil in Hd.
  - destruct (find_by_name ts s) as [[r t]|] eqn:Hf; [| done].
    intros H. destruct (IH H) as (ds' & -> & Hlen & Hall).
    exists (DepTask r :: ds'). split; [done |]. split; [simpl; lia |].
    intros d [-> | Hd]%elem_of_cons; eauto.
  - intros H. destruct (IH H) as (ds' & -> & Hlen & Hall).
    exists (DepTask r :: ds'). split; [done |]. split; [simpl; lia |].
    intros d [-> | Hd]%elem_of_cons; eauto.
Qed.

Lemma first_missing_elem ts ds d :
  DepName d ∈ ds -> find_by_name ts d = None -> is_Some (first_missing ts ds).
Proof.
  induction ds as [|[s|r] ds IH]; simpl.
  - intros H. by apply elem_of_nil in H.
  - intros [[= <-] | Hin]%elem_of_cons Hnone.
    + rewrite Hnone. eauto.
    + destruct (find_by_name ts s); eauto.
  - intros [[=] | Hin]%elem_of_cons Hnone. eauto.
Qed.

(** A task whose names all resolve is rewritten in place and handed to
    [gulp.task]; no name changes. *)
Lemma makeGulpTask_ok w r t :
  guzzleTasks w !! r = Some t ->
  first_missing (guzzleTasks w) (_dependencies t) = None ->
  exists w' t', makeGulpTask w r t = (w', None) /\
    guzzleTasks w' = <[r := t']> (guzzleTasks w) /\ _name t' = _name t /\
    map gname (gulpTasks w') = map gname (gulpTasks w) ++ [_name t] /\
    gulpStarted w' = gulpStarted w /\ vizInput w' = vizInput w.
Proof.
  intros Hr Hm. unfold makeGulpTask.
  destruct (resolve_deps_complete _ _ Hm) as (ds' & -> & _).
  eexists _, _. split; [reflexivity |]. simpl.
  split; [reflexivity |]. split; [reflexivity |].
  rewrite map_app. done.
Qed.

(** The loop of [makeGulpTasks] started at the task after [done]: the
    tasks of [pre] resolve and are registered, the task [t] throws. *)
Lemma makeGulpTasks_from_fails pre : forall done w t post d,
  guzzleTasks w = done ++ pre ++ t :: post ->
  (forall t', t' ∈ pre -> first_missing (guzzleTasks w) (_dependencies t') = None) ->
  first_missing (guzzleTasks w) (_dependencies t) = Some d ->
  exists w',
    makeGulpTasks_from (length (pre ++ t :: post)) (length done) w
    = (w', Some (not_found_message d)) /\
    map _name (guzzleTasks w') = map _name (guzzleTasks w) /\
    map gname (gulpTasks w') = map gname (gulpTasks w) ++ map _name pre /\
    gulpStarted w' = gulpStarted w /\ vizInput w' = vizInput w.
Proof.
  induction pre as [|p pre IH]; intros done w t post d Hts Hpre Ht.
  - assert (Hp : guzzleTasks w !! length done = Some t).
    { rewrite Hts. by apply list_lookup_middle. }
    exists w. simpl. rewrite Hp. unfold makeGulpTask.
    rewrite (resolve_deps_missing _ _ _ Ht). by rewrite app_nil_r.
  - assert (Hp : guzzleTasks w !! length done = Some p).
    { rewrite Hts. by apply list_lookup_middle. }
    assert (Hpm : first_missing (guzzleTasks w) (_dependencies p) = None).
    { apply Hpre. apply elem_of_cons. by left. }
    destruct (makeGulpTask_ok w (length done) p Hp Hpm)
      as (w1 & p' & Hstep & Hts1 & Hn & Hg & Hs & Hv).
    assert (Hnames : map _name (guzzleTasks w1) = map _name (guzzleTasks w)).
    { rewrite Hts1. by apply (insert_same_name _ _ p). }
    destruct (IH (done ++ [p']) w1 t post d) as (w' & Hrun & Hn' & Hg' & Hs' & Hv').
    + rewrite Hts1, Hts. rewrite insert_app_r_alt by done.
      rewrite Nat.sub_diag. simpl. by rewrite <- app_assoc.
    + intros t' Hin. rewrite (first_missing_names _ _ _ Hnames).
      apply Hpre. apply elem_of_cons. by right.
    + by rewrite (first_missing_names _ _ _ Hnames).
    + exists w'. split.
      * change (length ((p :: pre) ++ t :: post))
          with (S (length (pre ++ t :: post))).
        cbn [makeGulpTasks_from]. rewrite Hp, Hstep.
        replace (length (done ++ [p'])) with (S (length done)) in Hrun
          by (rewrite length_app; simpl; lia).
        exact Hrun.
      * rewrite Hn', Hnames, Hg', Hg, Hs', Hs, Hv', Hv. simpl.
        by rewrite <- app_assoc.
Qed.

(** The task [build] depends on the undeclared name [missing]: the
    message of the error is [task not found: missing], and [build] does
    not occur in it. *)
Lemma DependencyNotFound_omits_referrer :
  let w := fst (task "build" (ArgSingle (Some (DepName "missing")) (Some 0))
                     false world0) in
  snd (makeGulpTasks w) = Some "task not found: missing" /\
  ~ spec_DependencyNotFound w.
Proof.
  intros w. split; [reflexivity |]. intros Hspec.
  destruct (Hspec (mkTask "build" None None None NOT_STARTED false
                          [DepName "missing"] (Some 0)) "missing")
    as (msg & Hmsg & _ & Hname).
  - split; [| split].
    + apply list_elem_of_singleton. reflexivity.
    + apply list_elem_of_singleton. reflexivity.
    + reflexivity.
  - vm_compute in Hmsg. injection Hmsg as <-. vm_compute in Hname. discriminate.
Qed.

(** C2, amended.  When some declared task lists a name that no declared
    task carries, [makeGulpTasks] throws.  The tasks are visited in the
    order of their declaration: the throw comes from the first task [t]
    that has such an entry, after the tasks [pre] before it have been
    handed to [gulp.task], and the message is [task not found: ] followed
    by the first missing name of [t]; it does not name [t].  Neither [t]
    nor a later task is handed to [gulp.task], and the replaced
    [gulp.start] rethrows without calling the original [start]. *)
Theorem resolution_failure w t0 d0 :
  unresolved w t0 d0 ->
  exists pre t post d w',
    guzzleTasks w = pre ++ t :: post /\
    (forall t', t' ∈ pre ->
       first_missing (guzzleTasks w) (_dependencies t') = None) /\
    first_missing (guzzleTasks w) (_dependencies t) = Some d /\
    makeGulpTasks w = (w', Some ("task not found: " +:+ d)) /\
    map gname (gulpTasks w') = map gname (gulpTasks w) ++ map _name pre /\
    gulp_start w = (w', Some ("task not found: " +:+ d)) /\
    gulpStarted w' = gulpStarted w /\ vizInput w' = vizInput w.
Proof.
  intros (Hin & Hdep & Hnone).
  set (P := fun t => is_Some (first_missing (guzzleTasks w) (_dependencies t))).
  assert (HP0 : P t0) by (by apply (first_missing_elem _ _ d0)).
  destruct (list_find_elem_of P _ _ Hin HP0) as [[i t] Hfind].
  apply list_find_Some in Hfind as (Hi & [d Hd] & Hbefore).
  exists (take i (guzzleTasks w)), t, (drop (S i) (guzzleTasks w)), d.
  assert (Hsplit : guzzleTasks w
                   = take i (guzzleTasks w) ++ t :: drop (S i) (guzzleTasks w)).
  { symmetry. by apply take_drop_middle. }
  assert (Hpre : forall t', t' ∈ take i (guzzleTasks w) ->
            first_missing (guzzleTasks w) (_dependencies t') = None).
  { intros t' Ht'. apply list_elem_of_lookup in Ht' as [j Hj].
    pose proof (lookup_lt_Some _ _ _ Hj) as Hlt. rewrite length_take in Hlt.
    rewrite lookup_take_lt in Hj by lia.
    destruct (first_missing (guzzleTasks w) (_dependencies t')) eqn:E; [| done].
    exfalso. apply (Hbefore j t' Hj); [lia |]. unfold P. rewrite E. eauto. }
  destruct (makeGulpTasks_from_fails (take i (guzzleTasks w)) [] w t
              (drop (S i) (guzzleTasks w)) d Hsplit Hpre Hd)
    as (w' & Hrun & Hnames & Hg & Hs & Hv).
  rewrite <- Hsplit in Hrun. simpl in Hrun.
  exists w'. unfold gulp_start, makeGulpTasks. rewrite Hrun.
  repeat split; done.
Qed.

Lemma resolution_failure_witness :
  let w1 := fst (task "a" (ArgBody 0) false world0) in
  let w2 := fst (task "b"
                      (ArgArray [Some (DepName "a"); Some (DepName "missing")]
                                (Some 1))
                      false w1) in
  exists pre t post d w',
    guzzleTasks w2 = pre ++ t :: post /\
    (forall t', t' ∈ pre ->
       first_missing (guzzleTasks w2) (_dependencies t') = None) /\
    first_missing (guzzleTasks w2) (_dependencies t) = Some d /\
    makeGulpTasks w2 = (w', Some ("task not found: " +:+ d)) /\
    map gname (gulpTasks w') = map gname (gulpTasks w2) ++ map _name pre /\
    gulp_start w2 = (w', Some ("task not found: " +:+ d)) /\
    gulpStarted w' = gulpStarted w2 /\ vizInput w' = vizInput w2.
Proof.
  intros w1 w2.
  apply (resolution_failure w2
           (mkTask "b" None None None NOT_STARTED false
                   [DepName "a"; DepName "missing"] (Some 1)) "missing").
  split; [| split].
  - apply elem_of_cons. right. apply list_elem_of_singleton. reflexivity.
  - apply elem_of_cons. right. apply list_elem_of_singleton. reflexivity.
  - reflexivity.
Defined.

(** On that input the task [a] has reached [gulp.task] when [b] throws. *)
Example failing_resolution_registers_prefix :
  let w1 := fst (task "a" (ArgBody 0) false world0) in
  let w2 := fst (task "b"
                      (ArgArray [Some (DepName "a"); Some (DepName "missing")]
                                (Some 1))
                      false w1) in
  map gname (gulpTasks (fst (gulp_start w2))) = ["a"] /\
  snd (gulp_start w2) = Some "task not found: missing" /\
  gulpStarted (fst (gulp_start w2)) = 0.
Proof. repeat split. Qed.

(** ** The graph description *)

Lemma node_line_eq t :
  dq +:+ _name t +:+ dq +:+ " [" +:+ join "," (attr t) +:+ "];"
  = Graph.node_declaration (_name t) (Graph.shape_of t) (Graph.outline_of t).
Proof.
  unfold Graph.node_declaration, Graph.shape_of, Graph.outline_of, attr.
  do 3 f_equal.
  destruct (_dependencies t) as [|d ds], (_onDoneFunction t) as [fn|];
    reflexivity.
Qed.

Lemma foldl_push_edges (f : Dep -> string) ds : forall res,
  foldl (fun res d => res ++ [f d]) res ds = res ++ map f ds.
Proof.
  induction ds as [|d ds IH]; intros res; simpl.
  - by rewrite app_nil_r.
  - by rewrite IH, <- app_assoc.
Qed.

Lemma push_task_lines ts result t :
  push_task ts result t = result ++ Graph.task_lines ts t.
Proof.
  unfold push_task, Graph.task_lines. rewrite node_line_eq.
  destruct (decide (0 < length (_dependencies t))) as [Hpos | Hzero].
  - rewrite (foldl_push_edges
               (fun d => dq +:+ _name t +:+ dq +:+ " -> " +:+ dq
                           +:+ dep_name ts d +:+ dq +:+ ";")).
    by rewrite <- app_assoc.
  - destruct (_dependencies t); [done | simpl in Hzero; lia].
Qed.

Lemma foldl_push_task ts l : forall result,
  foldl (push_task ts) result l = result ++ flat_map (Graph.task_lines ts) l.
Proof.
  induction l as [|t l IH]; intros result; simpl.
  - by rewrite app_nil_r.
  - by rewrite IH, push_task_lines, <- app_assoc.
Qed.

Lemma length_flat_map_task_lines ts l :
  length (flat_map (Graph.task_lines ts) l) = length l + Graph.edge_count l.
Proof.
  induction l as [|t l IH]; [done |].
  unfold Graph.edge_count in *. simpl.
  rewrite length_app, length_map, IH. lia.
Qed.

(** An entry that was resolved points to a task, and the edge carries
    that task's name. *)
Lemma dep_name_resolved (ts : list GuzzleTask) r t :
  ts !! r = Some t -> dep_name ts (DepTask r) = _name t.
Proof. intros H. simpl. by rewrite H. Qed.

Lemma taskGraph_lines_description (ts : list GuzzleTask) :
  taskGraph_lines ts = Graph.description ts.
Proof.
  unfold taskGraph_lines, Graph.description. by rewrite foldl_push_task.
Qed.

Lemma taskGraph_lines_count (ts : list GuzzleTask) :
  length (taskGraph_lines ts) = 2 + length ts + Graph.edge_count ts.
Proof.
  rewrite taskGraph_lines_description. unfold Graph.description. simpl.
  rewrite length_app, length_flat_map_task_lines. simpl. lia.
Qed.

Example taskGraph_example :
  let w1 := fst (task "css" (ArgBody 0) false world0) in
  let w2 := fst (task "build"
                      (ArgArray [Some (DepTask 0); Some (DepName "lint")] None)
                      false w1) in
  let w3 := fst (task "lint" (ArgBody 1) false w2) in
  vizInput (fst (gulp_start (mkWorld (guzzleTasks w3) (Some "graph.svg")
                                     [] 0 [] [] [] 0)))
  = [ join nl [ "digraph G {";
                dq +:+ "build.css" +:+ dq +:+ " [shape=ellipse,style=solid];";
                dq +:+ "build" +:+ dq +:+ " [shape=box,style=dashed];";
                dq +:+ "build" +:+ dq +:+ " -> " +:+ dq +:+ "build.css" +:+ dq +:+ ";";
                dq +:+ "build" +:+ dq +:+ " -> " +:+ dq +:+ "lint" +:+ dq +:+ ";";
                dq +:+ "lint" +:+ dq +:+ " [shape=ellipse,style=solid];";
                "}" ] ].
Proof. reflexivity. Qed.

(** ** The graph is drawn from resolved tasks *)

Lemma resolve_deps_inr ts ds : forall ds',
  resolve_deps ts ds = inr ds' -> forall d, d ∈ ds' -> exists r, d = DepTask r.
Proof.
  induction ds as [|d0 ds IH]; intros ds' H d Hd; simpl in H.
  - injection H as <-. by apply elem_of_nil in Hd.
  - destruct (resolve_dep ts d0) as [e | d0'] eqn:H0; [done |].
    destruct (resolve_deps ts ds) as [e | ds''] eqn:H1; [done |].
    injection H as <-. apply elem_of_cons in Hd as [-> | Hd].
    + destruct d0 as [s | r]; simpl in H0.
      * destruct (find_by_name ts s) as [[r t]|]; [| done].
        injection H0 as <-. eauto.
      * injection H0 as <-. eauto.
    + by apply (IH ds'').
Qed.

Lemma makeGulpTask_None w r t w' :
  makeGulpTask w r t = (w', None) ->
  exists t', resolved t' /\
    guzzleTasks w' = <[r := t']> (guzzleTasks w) /\
    graphFilename w' = graphFilename w /\ vizInput w' = vizInput w /\
    gulpStarted w' = gulpStarted w.
Proof.
  unfold makeGulpTask.
  destruct (resolve_deps (guzzleTasks w) (_dependencies t)) as [e | ds] eqn:Hds;
    [done |].
  intros [= <-]. exists (set_dependencies ds t). split; [| done].
  intros d Hd. by apply (resolve_deps_inr _ _ _ Hds).
Qed.

(** When the loop ends without a throw, the tasks it visited are
    resolved and the others are as they were. *)
Lemma makeGulpTasks_from_ok n : forall r w w',
  makeGulpTasks_from n r w = (w', None) ->
  graphFilename w' = graphFilename w /\ vizInput w' = vizInput w /\
  gulpStarted w' = gulpStarted w /\
  forall j t', guzzleTasks w' !! j = Some t' ->
    (r <= j < r + n -> resolved t') /\
    (j < r \/ r + n <= j -> guzzleTasks w !! j = Some t').
Proof.
  induction n as [|n IH]; intros r w w' H; simpl in H.
  - injection H as <-. repeat split; try done. lia.
  - destruct (guzzleTasks w !! r) as [t|] eqn:Hr.
    + destruct (makeGulpTask w r t) as [w1 [e|]] eqn:Hstep; [done |].
      destruct (makeGulpTask_None _ _ _ _ Hstep) as (t1 & Hres & Hts & Hg & Hv & Hs).
      destruct (IH _ _ _ H) as (Hg' & Hv' & Hs' & Hall).
      split; [congruence |]. split; [congruence |]. split; [congruence |].
      intros j t' Hj. destruct (Hall j t' Hj) as [Hin Hout]. split.
      * intros Hrange. destruct (decide (j = r)) as [-> | Hne].
        -- assert (Hj1 : guzzleTasks w1 !! r = Some t') by (apply Hout; lia).
           rewrite Hts, list_lookup_insert_eq in Hj1
             by (by apply lookup_lt_Some in Hr).
           by injection Hj1 as <-.
        -- apply Hin. lia.
      * intros Hrange.
        assert (Hj1 : guzzleTasks w1 !! j = Some t') by (apply Hout; lia).
        rewrite Hts, list_lookup_insert_ne in Hj1 by lia. done.
    + injection H as <-. repeat split; try done.
      intros Hrange. apply lookup_ge_None in Hr.
      apply lookup_lt_Some in H. lia.
Qed.

(** X5.  [gulp.start] with a graph file configured: once the resolution has
    gone through, every dependency entry is a task object, the text given
    to the renderer is the description of these tasks, and the original
    [start] is called. *)
Lemma gulp_start_emits_graph w w' file :
  graphFilename w = Some file ->
  gulp_start w = (w', None) ->
  (forall t, t ∈ guzzleTasks w' -> resolved t) /\
  vizInput w' = vizInput w ++ [join nl (Graph.description (guzzleTasks w'))] /\
  gulpStarted w' = S (gulpStarted w).
Proof.
  intros Hfile Hstart. unfold gulp_start in Hstart.
  destruct (makeGulpTasks w) as [w1 [e|]] eqn:Hmake; [done |].
  destruct (makeGulpTasks_from_ok _ _ _ _ Hmake) as (Hg & Hv & Hs & Hall).
  rewrite Hg, Hfile in Hstart. injection Hstart as <-. simpl.
  split; [| split].
  - intros t Ht. apply list_elem_of_lookup in Ht as [j Hj].
    destruct (Hall j t Hj) as [Hin _]. apply Hin.
    split; [lia |]. simpl.
    destruct (decide (j < length (guzzleTasks w))) as [? | Hge]; [done |].
    destruct (Hall j t Hj) as [_ Hout].
    assert (Hw : guzzleTasks w !! j = Some t) by (apply Hout; lia).
    apply lookup_lt_Some in Hw. lia.
  - rewrite Hv. unfold taskGraph_text.
    by rewrite (taskGraph_lines_description (guzzleTasks w1)).
  - by rewrite Hs.
Qed.

(** ** Linearised reads *)

Lemma lookup_alter_Some {A} (f : A -> A) i (l : list A) j y :
  alter f i l !! j = Some y ->
  exists x, l !! j = Some x /\ (y = x \/ (i = j /\ y = f x)).
Proof.
  rewrite list_lookup_alter. destruct (decide (i = j)) as [-> | Hne].
  - destruct (l !! j) as [x|]; [| done]. intros [= <-]. eauto.
  - intros H. eauto.
Qed.

Lemma resumers_ok_streams P k w w' :
  streams w' = streams w -> resumers_ok P k w -> resumers_ok P k w'.
Proof. intros E H s x ev. rewrite E. apply H. Qed.

Lemma resumers_ok_alter P k f i w :
  (forall x ev, (ev, Resume k) ∈ listeners (f x) -> (ev, Resume k) ∈ listeners x) ->
  resumers_ok P k w ->
  resumers_ok P k (set_streams (alter f i (streams w)) w).
Proof.
  intros Hf H s x' ev Hl Hin. simpl in Hl.
  apply lookup_alter_Some in Hl as (x & Hx & [-> | [_ ->]]).
  - by apply (H s x ev).
  - apply (H s x ev Hx). by apply Hf.
Qed.


Lemma is_paused_streams k w w' :
  streams w' = streams w -> is_paused k w -> is_paused k w'.
Proof. intros E (x & Hx & Hp). exists x. by rewrite E. Qed.

Lemma is_paused_alter k f i w :
  (i = k -> forall x, paused x = true -> paused (f x) = true) ->
  is_paused k w ->
  is_paused k (set_streams (alter f i (streams w)) w).
Proof.
  intros Hf (x & Hx & Hp). unfold is_paused. simpl.
  rewrite list_lookup_alter. destruct (decide (i = k)) as [-> | Hne].
  - rewrite Hx. simpl. eauto.
  - eauto.
Qed.






Lemma run_action_keeps_held s1 s2 w a :
  a <> Resume s2 -> held_for s1 s2 w -> held_for s1 s2 (run_action w a).
Proof.
  intros Hne [Hp Hl]. destruct a as [s | t]; simpl.
  - split.
    + apply is_paused_alter; [| done]. intros ->. done.
    + apply resumers_ok_alter; [by intros x ev | done].
  - split.
    + by apply (is_paused_streams _ w).
    + by apply (resumers_ok_streams _ _ w).
Qed.

Lemma listeners_for_run_action w a s ev :
  listeners_for (run_action w a) s ev = listeners_for w s ev.
Proof.
  unfold listeners_for. destruct a as [s' | t]; simpl; [| done].
  rewrite list_lookup_alter. destruct (decide (s' = s)) as [-> | Hne]; [| done].
  by destruct (streams w !! s).
Qed.

Lemma foldl_run_action_keeps_held s1 s2 acts : forall w,
  Resume s2 ∉ acts -> held_for s1 s2 w ->
  held_for s1 s2 (foldl run_action w acts).
Proof.
  induction acts as [|a acts IH]; intros w Hnot H; simpl; [done |].
  apply not_elem_of_cons in Hnot as [Hne Hnot].
  apply IH; [done |]. apply run_action_keeps_held; [congruence | done].
Qed.

(** An event other than the [finish] of [s1] fires no listener that
    resumes [s2]. *)
Lemma emit_keeps_held s1 s2 s ev w :
  ~ (s = s1 /\ ev = "finish") ->
  held_for s1 s2 w -> held_for s1 s2 (emit s ev w).
Proof.
  intros Hne H. unfold emit. apply foldl_run_action_keeps_held; [| done].
  intros Hin. unfold listeners_for in Hin.
  destruct (streams w !! s) as [x|] eqn:Hx; [| by apply elem_of_nil in Hin].
  apply list_elem_of_fmap in Hin as ([ev' a] & Ha & Hin). simpl in Ha. subst a.
  apply list_elem_of_filter in Hin as [Hev Hin]. simpl in Hev. subst ev'.
  destruct H as [_ Hl]. apply Hne. by apply (Hl s x ev).
Qed.



Lemma read_after_read this w t old :
  guzzleTasks w !! this = Some t ->
  _stream t = Some old ->
  read this w
  = Some (stream_on old "finish" (Resume (length (streams w)))
            (stream_pause (length (streams w))
               (assign_stream this (Some (length (streams w)))
                  (set_streams (streams w ++ [mkStream false []]) w)))).
Proof. intros Hr Hs. unfold read. rewrite Hr. simpl. by rewrite Hs. Qed.

(** The second of two reads in a row holds its stream for the first. *)
Lemma second_read_held this w t old :
  guzzleTasks w !! this = Some t ->
  _stream t = Some old ->
  old < length (streams w) ->
  resumers_ok (fun _ _ => False) (length (streams w)) w ->
  exists w', read this w = Some w' /\
    guzzleTasks w' !! this = Some (set_stream (Some (length (streams w))) t) /\
    held_for old (length (streams w)) w'.
Proof.
  intros Hr Hs Hold Hnone.
  exists (stream_on old "finish" (Resume (length (streams w)))
            (stream_pause (length (streams w))
               (assign_stream this (Some (length (streams w)))
                  (set_streams (streams w ++ [mkStream false []]) w)))).
  split; [by apply (read_after_read this w t) |]. split.
  { simpl. by rewrite list_lookup_alter_eq, Hr. }
  split.
  - exists (mkStream true []). split; [| done]. simpl.
    rewrite list_lookup_alter_ne by lia.
    rewrite list_lookup_alter_eq.
    by rewrite (list_lookup_middle (streams w) [] _ _ eq_refl).
  - intros s x' ev Hl Hin. simpl in Hl.
    apply lookup_alter_Some in Hl as (x1 & Hx1 & Hcase1).
    apply lookup_alter_Some in Hx1 as (x0 & Hx0 & Hcase0).
    assert (Hbase : ~ (ev, Resume (length (streams w))) ∈ listeners x0).
    { apply lookup_snoc_Some in Hx0 as [[_ Hx0] | [_ <-]].
      - intros Hin0. exact (Hnone s x0 ev Hx0 Hin0).
      - apply not_elem_of_nil. }
    assert (Hmid : ~ (ev, Resume (length (streams w))) ∈ listeners x1).
    { destruct Hcase0 as [-> | [_ ->]]; done. }
    destruct Hcase1 as [-> | [<- ->]]; [done |].
    simpl in Hin. apply elem_of_app in Hin as [Hin | Hin]; [done |].
    apply list_elem_of_singleton in Hin. injection Hin as ->. done.
Qed.



(** The release is tied to [finish]: that event of the first stream
    resumes the second, the event [end] alone does not. *)
Example second_read_released_by_finish_only :
  let w := fst (task "t" (ArgBody 0) false world0) in
  let w2 := default w (read 0 w ≫= read 0) in
  paused <$> streams w2 !! 1 = Some true /\
  run_steps w2 [StepData 1; StepEmit 0 "end"; StepData 1]
  = (assign_stream 0 (Some 1) w2, []) /\
  paused <$> streams (emit 0 "finish" w2) !! 1 = Some false /\
  snd (run_steps w2 [StepEmit 0 "finish"; StepData 1]) = [1].
Proof. repeat split. Qed.



(** ** The lines of the rendered text *)

Lemma one_line_append a b : one_line (a +:+ b) = one_line a && one_line b.
Proof.
  induction a as [|c a IH]; [done |].
  change (String c a +:+ b) with (String c (a +:+ b)). simpl.
  by rewrite IH, andb_assoc.
Qed.

Lemma split_lines_one_line x : one_line x = true -> split_lines x = [x].
Proof.
  induction x as [|c x IH]; [done |]. simpl.
  intros [Hc Hx]%andb_true_iff. apply negb_true_iff in Hc. rewrite Hc.
  by rewrite (IH Hx).
Qed.

Lemma split_lines_cons x r :
  one_line x = true -> split_lines (x +:+ nl +:+ r) = x :: split_lines r.
Proof.
  induction x as [|c x IH]; [done |].
  change (String c x +:+ nl +:+ r) with (String c (x +:+ nl +:+ r)). simpl.
  intros [Hc Hx]%andb_true_iff. apply negb_true_iff in Hc. rewrite Hc.
  by rewrite (IH Hx).
Qed.

(** Splitting the joined lines gives the lines back. *)
Lemma split_lines_join l :
  l <> [] -> forallb one_line l = true -> split_lines (join nl l) = l.
Proof.
  induction l as [|x l IH]; [done |]. intros _ Hall.
  cbn [forallb] in Hall. apply andb_true_iff in Hall as [Hx Hl].
  destruct l as [|y l].
  - by apply split_lines_one_line.
  - change (join nl (x :: y :: l)) with (x +:+ nl +:+ join nl (y :: l)).
    rewrite (split_lines_cons _ _ Hx). f_equal. by apply IH.
Qed.

(** * Further properties of the resolution and of the declarations *)

Lemma find_index_names (ts ts' : list GuzzleTask) n :
  map _name ts = map _name ts' ->
  fst <$> find_by_name ts n = fst <$> find_by_name ts' n.
Proof.
  intros E.
  exact (findGuzzleTask_names (set_guzzleTasks ts' world0)
           (set_guzzleTasks ts world0) n E).
Qed.

Lemma resolved_dep_names ts ts' d :
  map _name ts = map _name ts' -> resolved_dep ts d = resolved_dep ts' d.
Proof.
  intros E. destruct d as [s | r]; simpl; [| done].
  pose proof (find_index_names ts ts' s E) as H.
  destruct (find_by_name ts s) as [[r t]|], (find_by_name ts' s) as [[r' t']|];
    simpl in H; congruence.
Qed.

Lemma name_lookup (ts : list GuzzleTask) r :
  from_option _name "undefined" (ts !! r)
  = default "undefined" (map _name ts !! r).
Proof.
  change (map _name ts) with (_name <$> ts). rewrite list_lookup_fmap.
  by destruct (ts !! r).
Qed.

Lemma dep_label_names ts ts' d :
  map _name ts = map _name ts' -> dep_label ts d = dep_label ts' d.
Proof.
  intros E. destruct d as [s | r]; simpl; [done |].
  by rewrite !name_lookup, E.
Qed.

Lemma resolve_deps_total ts ds :
  first_missing ts ds = None ->
  resolve_deps ts ds = inr (map (resolved_dep ts) ds).
Proof.
  induction ds as [|[s | r] ds IH]; simpl; [done | |].
  - destruct (find_by_name ts s) as [[r t]|]; [| done].
    intros H. by rewrite (IH H).
  - intros H. by rewrite (IH H).
Qed.

(** The names handed to [gulp.task] are read off the resolved entries;
    for a string they are the string again. *)
Lemma dep_name_resolved_dep ts ts' ds :
  map _name ts' = map _name ts ->
  first_missing ts ds = None ->
  map (dep_name ts') (map (resolved_dep ts) ds) = map (dep_label ts) ds.
Proof.
  intros E. induction ds as [|[s | r] ds IH]; simpl; [done | |].
  - destruct (find_by_name ts s) as [[r t]|] eqn:Hf; [| done].
    intros H. rewrite (IH H). f_equal. simpl.
    apply list_find_Some in Hf as (Hr & Hn & _).
    rewrite name_lookup, E, <- name_lookup, Hr. done.
  - intros H. rewrite (IH H). f_equal. simpl.
    by rewrite !name_lookup, E.
Qed.

Lemma resolved_task_names ts ts' t :
  map _name ts = map _name ts' -> resolved_task ts t = resolved_task ts' t.
Proof.
  intros E. unfold resolved_task. f_equal.
  apply map_ext. intros d. by apply resolved_dep_names.
Qed.

Lemma registration_names ts ts' t :
  map _name ts = map _name ts' -> registration ts t = registration ts' t.
Proof.
  intros E. unfold registration. f_equal.
  apply map_ext. intros d. by apply dep_label_names.
Qed.

(** The loop of [makeGulpTasks] over tasks that all resolve. *)
Lemma makeGulpTasks_from_success rest : forall done w,
  guzzleTasks w = done ++ rest ->
  (forall t, t ∈ rest -> first_missing (guzzleTasks w) (_dependencies t) = None) ->
  exists w',
    makeGulpTasks_from (length rest) (length done) w = (w', None) /\
    guzzleTasks w' = done ++ map (resolved_task (guzzleTasks w)) rest /\
    gulpTasks w' = gulpTasks w ++ map (registration (guzzleTasks w)) rest /\
    graphFilename w' = graphFilename w /\ gulpStarted w' = gulpStarted w /\
    vizInput w' = vizInput w /\ streams w' = streams w /\
    stdout w' = stdout w /\ ticks w' = ticks w.
Proof.
  induction rest as [|p rest IH]; intros done w Hts Hall.
  - exists w. simpl. rewrite Hts, !app_nil_r. done.
  - assert (Hp : guzzleTasks w !! length done = Some p).
    { rewrite Hts. by apply list_lookup_middle. }
    assert (Hpm : first_missing (guzzleTasks w) (_dependencies p) = None).
    { apply Hall. apply elem_of_cons. by left. }
    set (p' := resolved_task (guzzleTasks w) p).
    set (w1 := set_gulpTasks
                 (gulpTasks w ++ [registration (guzzleTasks w) p])
                 (set_guzzleTasks (<[length done := p']> (guzzleTasks w)) w)).
    assert (Hins : map _name (<[length done := p']> (guzzleTasks w))
                   = map _name (guzzleTasks w)).
    { by apply (insert_same_name _ _ p). }
    assert (Hnames : map _name (guzzleTasks w1) = map _name (guzzleTasks w))
      by exact Hins.
    assert (Hstep : makeGulpTask w (length done) p = (w1, None)).
    { unfold makeGulpTask. rewrite (resolve_deps_total _ _ Hpm).
      change (set_dependencies
                (map (resolved_dep (guzzleTasks w)) (_dependencies p)) p)
        with p'.
      by rewrite (dep_name_resolved_dep (guzzleTasks w) _ _ Hins Hpm). }
    assert (Hts1 : guzzleTasks w1 = (done ++ [p']) ++ rest).
    { unfold w1. cbn [guzzleTasks set_gulpTasks set_guzzleTasks].
      rewrite Hts, insert_app_r_alt by done.
      rewrite Nat.sub_diag. simpl. by rewrite <- app_assoc. }
    destruct (IH (done ++ [p']) w1 Hts1) as (w' & Hrun & Hts' & Hg' & Hrest).
    + intros t Ht. rewrite (first_missing_names _ _ _ Hnames).
      apply Hall. apply elem_of_cons. by right.
    + exists w'. split.
      * cbn [length makeGulpTasks_from]. rewrite Hp, Hstep.
        replace (length (done ++ [p'])) with (S (length done)) in Hrun
          by (rewrite length_app; simpl; lia).
        exact Hrun.
      * split; [| split; [| exact Hrest]].
        -- rewrite Hts', <- app_assoc. simpl. do 2 f_equal.
           apply map_ext. intros t. by apply resolved_task_names.
        -- rewrite Hg'.
           change (gulpTasks w1)
             with (gulpTasks w ++ [registration (guzzleTasks w) p]).
           rewrite <- app_assoc. simpl. do 2 f_equal.
           apply map_ext. intros t. by apply registration_names.
Qed.

Lemma first_missing_Some ts ds d :
  first_missing ts ds = Some d ->
  DepName d ∈ ds /\ find_by_name ts d = None.
Proof.
  induction ds as [|[s | r] ds IH]; simpl; [done | |].
  - destruct (find_by_name ts s) as [[r t]|] eqn:Hf.
    + intros H. destruct (IH H). split; [by apply elem_of_cons; right | done].
    + intros [= <-]. split; [by apply elem_of_cons; left | done].
  - intros H. destruct (IH H). split; [by apply elem_of_cons; right | done].
Qed.

Lemma no_unresolved_first_missing w :
  (forall t d, ~ unresolved w t d) ->
  forall t, t ∈ guzzleTasks w ->
    first_missing (guzzleTasks w) (_dependencies t) = None.
Proof.
  intros H t Ht.
  destruct (first_missing (guzzleTasks w) (_dependencies t)) as [d|] eqn:E;
    [| done].
  apply first_missing_Some in E as [Hin Hnone].
  exfalso. by apply (H t d).
Qed.

Lemma makeGulpTasks_success w :
  (forall t d, ~ unresolved w t d) ->
  exists w',
    makeGulpTasks w = (w', None) /\
    guzzleTasks w' = map (resolved_task (guzzleTasks w)) (guzzleTasks w) /\
    gulpTasks w' = gulpTasks w ++ map (registration (guzzleTasks w)) (guzzleTasks w) /\
    graphFilename w' = graphFilename w /\ gulpStarted w' = gulpStarted w /\
    vizInput w' = vizInput w /\ streams w' = streams w /\
    stdout w' = stdout w /\ ticks w' = ticks w.
Proof.
  intros H.
  exact (makeGulpTasks_from_success (guzzleTasks w) [] w eq_refl
           (no_unresolved_first_missing w H)).
Qed.

Lemma all_resolvable_no_unresolved w :
  all_resolvable w = true -> forall t d, ~ unresolved w t d.
Proof.
  unfold all_resolvable. rewrite forallb_forall.
  intros H t d (Hin & Hdep & Hnone).
  apply list_elem_of_In in Hin. specialize (H t Hin).
  destruct (first_missing_elem _ _ _ Hdep Hnone) as [d' Hd'].
  by rewrite Hd' in H.
Qed.

Lemma unresolved_throws w t0 d0 :
  unresolved w t0 d0 -> exists w' e, makeGulpTasks w = (w', Some e).
Proof.
  intros (Hin & Hdep & Hnone).
  set (P := fun t => is_Some (first_missing (guzzleTasks w) (_dependencies t))).
  assert (HP0 : P t0) by (by apply (first_missing_elem _ _ d0)).
  destruct (list_find_elem_of P _ _ Hin HP0) as [[i t] Hfind].
  apply list_find_Some in Hfind as (Hi & [d Hd] & Hbefore).
  assert (Hsplit : guzzleTasks w
                   = take i (guzzleTasks w) ++ t :: drop (S i) (guzzleTasks w)).
  { symmetry. by apply take_drop_middle. }
  destruct (makeGulpTasks_from_fails (take i (guzzleTasks w)) [] w t
              (drop (S i) (guzzleTasks w)) d Hsplit) as (w' & Hrun & _);
    [| done |].
  - intros t' Ht'. apply list_elem_of_lookup in Ht' as [j Hj].
    pose proof (lookup_lt_Some _ _ _ Hj) as Hlt. rewrite length_take in Hlt.
    rewrite lookup_take_lt in Hj by lia.
    destruct (first_missing (guzzleTasks w) (_dependencies t')) eqn:E; [| done].
    exfalso. apply (Hbefore j t' Hj); [lia |]. unfold P. rewrite E. eauto.
  - rewrite <- Hsplit in Hrun. simpl in Hrun. eauto.
Qed.

Lemma makeGulpTasks_None_resolvable w w' :
  makeGulpTasks w = (w', None) -> forall t d, ~ unresolved w t d.
Proof.
  intros Hrun t d Hu. destruct (unresolved_throws w t d Hu) as (w1 & e & H).
  congruence.
Qed.

Lemma gulp_start_None_resolvable w w' :
  gulp_start w = (w', None) -> forall t d, ~ unresolved w t d.
Proof.
  unfold gulp_start. destruct (makeGulpTasks w) as [w1 [e|]] eqn:Hrun; [done |].
  intros _. by apply (makeGulpTasks_None_resolvable w w1).
Qed.

(** X1.  When the resolution returns without a throw, on tasks with
    non-empty names, it has kept the
    number and the order of the tasks and of their entries and every
    field but the dependency list; an object entry has stayed, and a
    string entry has become the first declared task that carries that
    name. *)
Theorem resolution_replaces_names w w' :
  names_nonempty w = true ->
  makeGulpTasks w = (w', None) ->
  length (guzzleTasks w') = length (guzzleTasks w) /\
  forall k t, guzzleTasks w !! k = Some t ->
    exists ds', guzzleTasks w' !! k = Some (set_dependencies ds' t) /\
      length ds' = length (_dependencies t) /\
      forall i d, _dependencies t !! i = Some d ->
        match d with
        | DepTask r => ds' !! i = Some (DepTask r)
        | DepName s =>
            exists r t0, ds' !! i = Some (DepTask r) /\
              guzzleTasks w !! r = Some t0 /\ _name t0 = s /\
              forall j tj, j < r -> guzzleTasks w !! j = Some tj ->
                _name tj <> s
        end.
Proof.
  intros _ Hrun0.
  pose proof (makeGulpTasks_None_resolvable w w' Hrun0) as Hres.
  destruct (makeGulpTasks_success w Hres) as (w1 & Hrun & Hts & _).
  rewrite Hrun0 in Hrun. injection Hrun as <-.
  split; [by rewrite Hts, length_map |].
  intros k t Hk.
  exists (map (resolved_dep (guzzleTasks w)) (_dependencies t)).
  split; [| split; [by rewrite length_map |]].
  - rewrite Hts. change (map ?f ?l) with (f <$> l).
    by rewrite list_lookup_fmap, Hk.
  - intros i d Hi. change (map ?f ?l) with (f <$> l).
    rewrite list_lookup_fmap, Hi. simpl.
    destruct d as [s | r]; [| done]. simpl.
    destruct (find_by_name (guzzleTasks w) s) as [[r t0]|] eqn:Hf.
    + apply list_find_Some in Hf as (Hr & Hn & Hfirst).
      exists r, t0. repeat split; try done.
      intros j tj Hj Htj. by apply (Hfirst j tj).
    + exfalso. apply (Hres t s). split; [| split; [| done]].
      * apply list_elem_of_lookup. eauto.
      * apply list_elem_of_lookup. eauto.
Qed.

Lemma resolution_replaces_names_witness :
  let w' := fst (makeGulpTasks sample_world) in
  length (guzzleTasks w') = length (guzzleTasks sample_world) /\
  forall k t, guzzleTasks sample_world !! k = Some t ->
    exists ds', guzzleTasks w' !! k = Some (set_dependencies ds' t) /\
      length ds' = length (_dependencies t) /\
      forall i d, _dependencies t !! i = Some d ->
        match d with
        | DepTask r => ds' !! i = Some (DepTask r)
        | DepName s =>
            exists r t0, ds' !! i = Some (DepTask r) /\
              guzzleTasks sample_world !! r = Some t0 /\ _name t0 = s /\
              forall j tj, j < r -> guzzleTasks sample_world !! j = Some tj ->
                _name tj <> s
        end.
Proof.
  intros w'. apply (resolution_replaces_names sample_world w'); reflexivity.
Defined.

(** X2.  When the resolution returns without a throw, on tasks with
    non-empty names, every task has
    been handed to [gulp.task] exactly once, in the order of the
    declarations, under its name and with its body; the dependency names
    given to gulp are the strings as they were written and, for an
    object, the name the object carries. *)
Theorem resolution_registers_every_task w w' :
  names_nonempty w = true ->
  makeGulpTasks w = (w', None) ->
  gulpTasks w'
  = gulpTasks w
    ++ map (fun t => mkGulpTask (_name t)
                       (map (dep_label (guzzleTasks w)) (_dependencies t))
                       (_onDoneFunction t))
           (guzzleTasks w).
Proof.
  intros _ Hrun0.
  pose proof (makeGulpTasks_None_resolvable w w' Hrun0) as Hres.
  destruct (makeGulpTasks_success w Hres) as (w1 & Hrun & _ & Hg & _).
  rewrite Hrun0 in Hrun. by injection Hrun as <-.
Qed.

Lemma resolution_registers_every_task_witness :
  gulpTasks (fst (makeGulpTasks sample_world))
  = [ mkGulpTask "build.css" [] (Some 0);
      mkGulpTask "build" ["build.css"; "lint"] None;
      mkGulpTask "lint" [] (Some 1) ].
Proof.
  apply (resolution_registers_every_task sample_world
           (fst (makeGulpTasks sample_world))); reflexivity.
Defined.

Lemma resolved_dep_resolved ts ts' d :
  (forall s, d = DepName s -> is_Some (find_by_name ts s)) ->
  resolved_dep ts' (resolved_dep ts d) = resolved_dep ts d.
Proof.
  intros H. destruct d as [s | r]; simpl; [| done].
  destruct (H s eq_refl) as [[r t] Hf]. by rewrite Hf.
Qed.

Lemma resolved_world_resolvable w :
  (forall t d, ~ unresolved w t d) ->
  forall t d,
    ~ unresolved
        (set_guzzleTasks
           (map (resolved_task (guzzleTasks w)) (guzzleTasks w)) w) t d.
Proof.
  intros Hres t d (Hin & Hdep & _). simpl in Hin.
  change (map ?f ?l) with (f <$> l) in Hin.
  apply list_elem_of_fmap in Hin as (t0 & -> & Hin). simpl in Hdep.
  change (map ?f ?l) with (f <$> l) in Hdep.
  apply list_elem_of_fmap in Hdep as (d0 & Hd0 & Hin0).
  destruct d0 as [s | r]; simpl in Hd0; [| done].
  destruct (find_by_name (guzzleTasks w) s) as [[r t1]|] eqn:Hf; [done |].
  by apply (Hres t0 s).
Qed.

(** The resolution of a resolved list changes no task. *)
Lemma resolved_task_twice w t :
  (forall t d, ~ unresolved w t d) ->
  t ∈ guzzleTasks w ->
  resolved_task (map (resolved_task (guzzleTasks w)) (guzzleTasks w))
                (resolved_task (guzzleTasks w) t)
  = resolved_task (guzzleTasks w) t.
Proof.
  intros Hres Hin. unfold resolved_task, set_dependencies. simpl. f_equal.
  rewrite map_map. apply map_ext_in. intros d Hd.
  apply resolved_dep_resolved. intros s ->.
  destruct (find_by_name (guzzleTasks w) s) eqn:Hf; [by eexists |].
  exfalso. apply (Hres t s). split; [done |]. split; [| done].
  by apply list_elem_of_In.
Qed.

Lemma registration_resolved w t :
  (forall t d, ~ unresolved w t d) ->
  t ∈ guzzleTasks w ->
  registration (map (resolved_task (guzzleTasks w)) (guzzleTasks w))
               (resolved_task (guzzleTasks w) t)
  = registration (guzzleTasks w) t.
Proof.
  intros Hres Hin. unfold registration, resolved_task. simpl. f_equal.
  rewrite map_map. apply map_ext_in. intros d Hd.
  assert (E : map _name (map (resolved_task (guzzleTasks w)) (guzzleTasks w))
              = map _name (guzzleTasks w)).
  { rewrite map_map. by apply map_ext. }
  rewrite (dep_label_names _ _ _ E).
  destruct d as [s | r]; simpl; [| done].
  destruct (find_by_name (guzzleTasks w) s) as [[r t0]|] eqn:Hf.
  - simpl. apply list_find_Some in Hf as (Hr & Hn & _). by rewrite Hr.
  - exfalso. apply (Hres t s). split; [done |]. split; [| done].
    by apply list_elem_of_In.
Qed.

Lemma makeGulpTasks_twice w :
  (forall t d, ~ unresolved w t d) ->
  exists w1 w2,
    makeGulpTasks w = (w1, None) /\ makeGulpTasks w1 = (w2, None) /\
    guzzleTasks w2 = guzzleTasks w1 /\
    gulpTasks w1 = gulpTasks w ++ map (registration (guzzleTasks w)) (guzzleTasks w) /\
    gulpTasks w2 = gulpTasks w1 ++ map (registration (guzzleTasks w)) (guzzleTasks w) /\
    graphFilename w1 = graphFilename w /\ graphFilename w2 = graphFilename w /\
    gulpStarted w1 = gulpStarted w /\ gulpStarted w2 = gulpStarted w /\
    vizInput w1 = vizInput w /\ vizInput w2 = vizInput w.
Proof.
  intros Hres.
  destruct (makeGulpTasks_success w Hres)
    as (w1 & Hrun1 & Hts1 & Hg1 & Hf1 & Hs1 & Hv1 & _).
  assert (Hres1 : forall t d, ~ unresolved w1 t d).
  { intros t d (Hin & Hdep & Hnone).
    apply (resolved_world_resolvable w Hres t d).
    rewrite Hts1 in Hin, Hnone. done. }
  destruct (makeGulpTasks_success w1 Hres1)
    as (w2 & Hrun2 & Hts2 & Hg2 & Hf2 & Hs2 & Hv2 & _).
  exists w1, w2. split; [done |]. split; [done |].
  split; [| split; [done | split; [| repeat split; congruence]]].
  - rewrite Hts2, Hts1, map_map. apply map_ext_in. intros t Ht.
    apply resolved_task_twice; [done | by apply list_elem_of_In].
  - rewrite Hg2, Hts1, map_map. f_equal. apply map_ext_in. intros t Ht.
    apply registration_resolved; [done | by apply list_elem_of_In].
Qed.

(** X3.  The resolution can be run again: when a first and a second
    run both return without a throw, on tasks with non-empty names, the second has changed no task and
    has handed every task to [gulp.task] once more, with the same name,
    dependency names and body as the first. *)
Theorem resolution_idempotent w w1 w2 :
  names_nonempty w = true ->
  makeGulpTasks w = (w1, None) ->
  makeGulpTasks w1 = (w2, None) ->
  guzzleTasks w2 = guzzleTasks w1 /\
  exists regs, gulpTasks w1 = gulpTasks w ++ regs /\
               gulpTasks w2 = gulpTasks w ++ regs ++ regs /\
               length regs = length (guzzleTasks w).
Proof.
  intros _ Hrun1 Hrun2.
  pose proof (makeGulpTasks_None_resolvable w w1 Hrun1) as Hres.
  destruct (makeGulpTasks_twice w Hres)
    as (w1' & w2' & H1 & H2 & Hts & Hg1 & Hg2 & _).
  rewrite Hrun1 in H1. injection H1 as <-.
  rewrite Hrun2 in H2. injection H2 as <-.
  split; [done |].
  exists (map (registration (guzzleTasks w)) (guzzleTasks w)).
  split; [done |]. split; [| by rewrite length_map].
  by rewrite Hg2, Hg1, <- app_assoc.
Qed.

Lemma resolution_idempotent_witness :
  let w1 := fst (makeGulpTasks sample_world) in
  let w2 := fst (makeGulpTasks w1) in
  guzzleTasks w2 = guzzleTasks w1 /\
  exists regs, gulpTasks w1 = gulpTasks sample_world ++ regs /\
               gulpTasks w2 = gulpTasks sample_world ++ regs ++ regs /\
               length regs = length (guzzleTasks sample_world).
Proof.
  intros w1 w2.
  apply (resolution_idempotent sample_world w1 w2); reflexivity.
Defined.

Lemma unresolved_tasks w w' t d :
  guzzleTasks w' = guzzleTasks w -> unresolved w' t d -> unresolved w t d.
Proof. unfold unresolved. by intros ->. Qed.

Lemma gulp_start_success w :
  (forall t d, ~ unresolved w t d) ->
  exists w',
    gulp_start w = (w', None) /\
    guzzleTasks w' = map (resolved_task (guzzleTasks w)) (guzzleTasks w) /\
    gulpTasks w' = gulpTasks w ++ map (registration (guzzleTasks w)) (guzzleTasks w) /\
    graphFilename w' = graphFilename w /\
    gulpStarted w' = S (gulpStarted w) /\
    vizInput w'
    = vizInput w ++ match graphFilename w with
                    | Some _ => [taskGraph_text (guzzleTasks w')]
                    | None => []
                    end.
Proof.
  intros Hres.
  destruct (makeGulpTasks_success w Hres)
    as (w1 & Hrun & Hts & Hg & Hf & Hs & Hv & _).
  unfold gulp_start. rewrite Hrun, Hf. eexists. split; [reflexivity |].
  destruct (graphFilename w); simpl; rewrite ?Hv, ?Hs, ?app_nil_r; done.
Qed.

(** ** The graph that a start draws *)

(** A name that no task carries makes the resolution throw. *)
Lemma refs_in_range_lookup w t r :
  refs_in_range w = true -> t ∈ guzzleTasks w -> DepTask r ∈ _dependencies t ->
  is_Some (guzzleTasks w !! r).
Proof.
  unfold refs_in_range. rewrite forallb_forall. intros H Ht Hr.
  apply list_elem_of_In in Ht, Hr. specialize (H t Ht).
  rewrite forallb_forall in H. specialize (H _ Hr). simpl in H.
  apply lookup_lt_is_Some_2. by apply Nat.ltb_lt.
Qed.

(** For a declared entry that resolves, the name printed by the code is
    the name of the dependency. *)
Lemma dep_label_declared_target ts d :
  (forall r, d = DepTask r -> is_Some (ts !! r)) ->
  dep_label ts d = declared_target ts d.
Proof.
  intros H. destruct d as [s | r]; simpl; [done |].
  destruct (H r eq_refl) as [t ->]. done.
Qed.

Lemma resolved_task_lines w t :
  refs_in_range w = true ->
  (forall t d, ~ unresolved w t d) ->
  t ∈ guzzleTasks w ->
  Graph.task_lines (map (resolved_task (guzzleTasks w)) (guzzleTasks w))
                   (resolved_task (guzzleTasks w) t)
  = declared_lines (guzzleTasks w) t.
Proof.
  intros Hrange Hres Ht. unfold Graph.task_lines, declared_lines. f_equal.
  - unfold Graph.shape_of, resolved_task. simpl.
    by destruct (_dependencies t).
  - unfold resolved_task. simpl.
    rewrite <- (map_map (dep_name _)
                  (Graph.edge_declaration (_name t))).
    rewrite (dep_name_resolved_dep (guzzleTasks w)).
    + rewrite map_map. apply map_ext_in. intros d Hd. f_equal.
      apply dep_label_declared_target. intros r ->.
      apply (refs_in_range_lookup w t r Hrange Ht). by apply list_elem_of_In.
    + rewrite map_map. by apply map_ext.
    + by apply no_unresolved_first_missing.
Qed.

Lemma flat_map_map_in {A B C} (f : B -> list C) (g : A -> B) (h : A -> list C)
    (l : list A) :
  (forall x, x ∈ l -> f (g x) = h x) ->
  flat_map f (map g l) = flat_map h l.
Proof.
  induction l as [|x l IH]; intros H; simpl; [done |].
  rewrite H by (by left). f_equal. apply IH. intros y Hy. apply H. by right.
Qed.

Lemma declared_description_length ts :
  length (declared_description ts) = 2 + length ts + Graph.edge_count ts.
Proof.
  unfold declared_description. simpl. rewrite length_app. simpl.
  assert (H : forall l, length (flat_map (declared_lines ts) l)
                        = length l + Graph.edge_count l).
  { induction l as [|t l IH]; [done |].
    unfold Graph.edge_count in *. simpl.
    rewrite length_app, length_map, IH. lia. }
  rewrite H. lia.
Qed.

Lemma one_line_node name s o :
  one_line name = true -> one_line (Graph.node_declaration name s o) = true.
Proof.
  intros H. unfold Graph.node_declaration. rewrite !one_line_append, H.
  by destruct s, o.
Qed.

Lemma one_line_edge a b :
  one_line a = true -> one_line b = true ->
  one_line (Graph.edge_declaration a b) = true.
Proof.
  intros Ha Hb. unfold Graph.edge_declaration.
  by rewrite !one_line_append, Ha, Hb.
Qed.

Lemma declared_target_one_line w t d :
  refs_in_range w = true -> names_one_line w = true ->
  (forall t d, ~ unresolved w t d) ->
  t ∈ guzzleTasks w -> d ∈ _dependencies t ->
  one_line (declared_target (guzzleTasks w) d) = true.
Proof.
  intros Hrange Hnames Hres Ht Hd.
  unfold names_one_line in Hnames. rewrite forallb_forall in Hnames.
  destruct d as [s | r]; simpl.
  - destruct (find_by_name (guzzleTasks w) s) as [[r t0]|] eqn:Hf.
    + apply list_find_Some in Hf as (Hr & <- & _). apply Hnames.
      apply list_elem_of_In, list_elem_of_lookup. eauto.
    + exfalso. by apply (Hres t s).
  - destruct (refs_in_range_lookup w t r Hrange Ht Hd) as [t0 Hr].
    rewrite Hr. apply Hnames. apply list_elem_of_In, list_elem_of_lookup. eauto.
Qed.

Lemma declared_description_one_line w :
  refs_in_range w = true -> names_one_line w = true ->
  (forall t d, ~ unresolved w t d) ->
  forallb one_line (declared_description (guzzleTasks w)) = true.
Proof.
  intros Hrange Hnames Hres. rewrite forallb_forall. intros x Hx.
  apply list_elem_of_In in Hx. unfold declared_description in Hx.
  apply elem_of_cons in Hx as [-> | Hx]; [done |].
  apply elem_of_app in Hx as [Hx | Hx].
  2: { apply list_elem_of_singleton in Hx. by subst. }
  apply list_elem_of_In, in_flat_map in Hx as (t & Ht & Hx).
  apply list_elem_of_In in Ht.
  assert (Hn : one_line (_name t) = true).
  { unfold names_one_line in Hnames. rewrite forallb_forall in Hnames.
    apply Hnames. by apply list_elem_of_In. }
  unfold declared_lines in Hx. destruct Hx as [<- | Hx].
  - by apply one_line_node.
  - apply in_map_iff in Hx as (d & <- & Hd). apply one_line_edge; [done |].
    apply (declared_target_one_line w t d); try done.
    by apply list_elem_of_In.
Qed.

(** C5.  When a start goes through with a graph file configured, the
    text handed to the renderer is made of these lines, joined by line
    breaks: the opening line; then for each declared task, in the order
    of the declarations, one node declaration ([box] when the task has
    dependencies, [ellipse] when it has none; [solid] when it has a body,
    [dashed] when it has none) followed by one edge from the task's name
    to the name of each entry of its dependency list, in the order of
    that list; then the closing line.  The text is a function of the
    declared tasks alone, and when no name holds a line break it has
    exactly these lines: two, one per task and one per dependency
    entry. *)
Theorem taskGraph_follows_declarations w w' file :
  refs_in_range w = true ->
  graphFilename w = Some file ->
  gulp_start w = (w', None) ->
  vizInput w'
  = vizInput w ++ [join nl (declared_description (guzzleTasks w))] /\
  (names_one_line w = true ->
   split_lines (join nl (declared_description (guzzleTasks w)))
   = declared_description (guzzleTasks w) /\
   length (split_lines (join nl (declared_description (guzzleTasks w))))
   = 2 + length (guzzleTasks w) + Graph.edge_count (guzzleTasks w)).
Proof.
  intros Hrange Hfile Hstart.
  pose proof (gulp_start_None_resolvable w w' Hstart) as Hres.
  destruct (gulp_start_success w Hres) as (w1 & Hrun & Hts & _ & _ & _ & Hv).
  rewrite Hstart in Hrun. injection Hrun as <-. rewrite Hfile in Hv.
  split.
  - rewrite Hv. do 2 f_equal. unfold taskGraph_text.
    rewrite taskGraph_lines_description, Hts.
    unfold Graph.description, declared_description. do 3 f_equal.
    apply flat_map_map_in. intros t Ht. by apply resolved_task_lines.
  - intros Hnames.
    assert (Hsplit : split_lines (join nl (declared_description (guzzleTasks w)))
                     = declared_description (guzzleTasks w)).
    { apply split_lines_join; [done |].
      by apply declared_description_one_line. }
    split; [exact Hsplit |]. rewrite Hsplit.
    apply declared_description_length.
Qed.

Lemma taskGraph_follows_declarations_witness :
  let w' := fst (gulp_start sample_world_graph) in
  vizInput w'
  = vizInput sample_world_graph
    ++ [join nl (declared_description (guzzleTasks sample_world_graph))] /\
  (names_one_line sample_world_graph = true ->
   split_lines (join nl (declared_description (guzzleTasks sample_world_graph)))
   = declared_description (guzzleTasks sample_world_graph) /\
   length (split_lines
             (join nl (declared_description (guzzleTasks sample_world_graph))))
   = 2 + length (guzzleTasks sample_world_graph)
     + Graph.edge_count (guzzleTasks sample_world_graph)).
Proof.
  intros w'.
  apply (taskGraph_follows_declarations sample_world_graph w' "graph.svg");
    reflexivity.
Defined.



Lemma gulp_start_emits_graph_witness :
  let w' := fst (gulp_start sample_world_graph) in
  (forall t, t ∈ guzzleTasks w' -> resolved t) /\
  vizInput w'
  = vizInput sample_world_graph
    ++ [join nl (Graph.description (guzzleTasks w'))] /\
  gulpStarted w' = S (gulpStarted sample_world_graph).
Proof.
  intros w'.
  apply (gulp_start_emits_graph sample_world_graph w' "graph.svg");
    reflexivity.
Defined.

(** X6.  Without a graph file, a start that goes through gives nothing
    to the renderer; with or without one it calls the original [start]
    exactly once. *)
Theorem gulp_start_without_graph w w' :
  graphFilename w = None ->
  gulp_start w = (w', None) ->
  vizInput w' = vizInput w /\ gulpStarted w' = S (gulpStarted w).
Proof.
  intros Hfile Hstart. unfold gulp_start in Hstart.
  destruct (makeGulpTasks w) as [w1 [e|]] eqn:Hmake; [done |].
  destruct (makeGulpTasks_from_ok _ _ _ _ Hmake) as (Hg & Hv & Hs & _).
  rewrite Hg, Hfile in Hstart. injection Hstart as <-. simpl.
  by rewrite Hv, Hs.
Qed.

Lemma gulp_start_without_graph_witness :
  let w' := fst (gulp_start sample_world) in
  vizInput w' = vizInput sample_world /\
  gulpStarted w' = S (gulpStarted sample_world).
Proof.
  intros w'. apply (gulp_start_without_graph sample_world w'); reflexivity.
Defined.

(** ** Declarations *)

Lemma set_name_set_name n1 n2 t : set_name n2 (set_name n1 t) = set_name n2 t.
Proof. done. Qed.

Lemma set_name_same t : set_name (_name t) t = t.
Proof. by destruct t. Qed.

Lemma iter_namespaced_succ parent n name :
  Nat.iter n (namespaced parent) (namespaced parent name)
  = namespaced parent (Nat.iter n (namespaced parent) name).
Proof. induction n as [|n IH]; simpl; [done | by rewrite IH]. Qed.

Lemma foldl_namespace_dep_task parent ds : forall (ts : list GuzzleTask) r t,
  ts !! r = Some t ->
  foldl (namespace_dep parent) ts ds !! r
  = Some (set_name (Nat.iter (occurrences r ds) (namespaced parent) (_name t)) t).
Proof.
  induction ds as [|d ds IH]; intros ts r t Hr; simpl.
  - by rewrite set_name_same.
  - destruct d as [s | r']; simpl; [by apply IH |].
    destruct (decide (r' = r)) as [-> | Hne].
    + rewrite (IH _ r (set_name (namespaced parent (_name t)) t)).
      * simpl. by rewrite iter_namespaced_succ.
      * by rewrite list_lookup_alter_eq, Hr.
    + apply IH. by rewrite list_lookup_alter_ne.
Qed.

(** X7.  A declaration appends exactly one task, in [NOT_STARTED], with
    no stream and no stamps, holding the name, the entries, the body and
    the flag it was given, and returns its position.  Of the tasks that
    exist it changes nothing but the name of those listed as objects; a
    task that is not listed as an object, such as a sub-task of a listed
    one, is left exactly as it was.  Nothing else of the world changes. *)
Theorem declaration_frame parent ds fn once w :
  let w' := fst (new_GuzzleTask parent ds fn once w) in
  let this := snd (new_GuzzleTask parent ds fn once w) in
  this = length (guzzleTasks w) /\
  length (guzzleTasks w') = S (length (guzzleTasks w)) /\
  guzzleTasks w' !! this
  = Some (mkTask parent None None None NOT_STARTED once ds fn) /\
  (forall r t, guzzleTasks w !! r = Some t ->
     guzzleTasks w' !! r
     = Some (set_name (Nat.iter (occurrences r ds) (namespaced parent) (_name t)) t)) /\
  (forall r t, guzzleTasks w !! r = Some t -> occurrences r ds = 0 ->
     guzzleTasks w' !! r = Some t) /\
  gulpTasks w' = gulpTasks w /\ streams w' = streams w /\
  graphFilename w' = graphFilename w.
Proof.
  intros w' this.
  pose proof (new_GuzzleTask_this parent ds fn once w) as Hthis.
  unfold w', this. destruct (new_GuzzleTask parent ds fn once w) as [w1 r1] eqn:E.
  destruct Hthis as [-> Hl]. simpl.
  assert (Hw1 : guzzleTasks w1
                = foldl (namespace_dep parent) (guzzleTasks w) ds
                  ++ [mkTask parent None None None NOT_STARTED once ds fn]).
  { unfold new_GuzzleTask in E. by injection E as <- _. }
  assert (Hold : forall r t, guzzleTasks w !! r = Some t ->
            guzzleTasks w1 !! r
            = Some (set_name
                      (Nat.iter (occurrences r ds) (namespaced parent) (_name t)) t)).
  { intros r t Hr. rewrite Hw1.
    rewrite lookup_app_l
      by (rewrite foldl_namespace_dep_length; by apply lookup_lt_Some in Hr).
    by apply foldl_namespace_dep_task. }
  split; [done |]. split.
  { rewrite Hw1, length_app, foldl_namespace_dep_length. simpl. lia. }
  split; [done |]. split; [done |]. split.
  { intros r t Hr Hocc. rewrite (Hold r t Hr), Hocc. simpl.
    by rewrite set_name_same. }
  unfold new_GuzzleTask in E. by injection E as <- _.
Qed.

(** X8.  When no entry is an object, the task that the lifecycle
    handlers find under the declared name is the new task if the name was
    free, and the earlier task of that name if it was taken: a second
    task of the same name is never found. *)
Theorem declared_name_lookup name ds fn once w :
  (forall r, DepTask r ∉ ds) ->
  findGuzzleTask (fst (new_GuzzleTask name ds fn once w)) name
  = Some (default (length (guzzleTasks w)) (findGuzzleTask w name)).
Proof.
  intros Hstr.
  assert (Hid : forall ts, foldl (namespace_dep name) ts ds = ts).
  { induction ds as [|d ds IH]; intros ts; simpl; [done |].
    destruct d as [s | r].
    - apply IH. intros r Hr. apply (Hstr r). apply elem_of_cons. by right.
    - exfalso. apply (Hstr r). apply elem_of_cons. by left. }
  unfold findGuzzleTask, find_by_name, new_GuzzleTask. simpl. rewrite Hid.
  destruct (list_find (fun t => _name t = name) (guzzleTasks w))
    as [[r t]|] eqn:Hf.
  - by rewrite (list_find_app_l _ _ _ _ _ Hf).
  - rewrite (list_find_app_r _ _ _ Hf). simpl.
    destruct (decide (name = name)); done.
Qed.

Lemma declared_name_lookup_witness :
  findGuzzleTask (fst (new_GuzzleTask "lint" [DepName "css"] (Some 2) false
                                      sample_world)) "lint"
  = Some 2.
Proof.
  apply (declared_name_lookup "lint" [DepName "css"] (Some 2) false sample_world).
  intros r Hin. apply list_elem_of_singleton in Hin. discriminate.
Defined.

(** * Further properties of the handlers on concrete tasks *)

Lemma deliver_frame_witness :
  let w := sample_world in
  let w' := default w (deliver clock_1s plain true SigStart "build" w) in
  (forall j, j <> 1 -> guzzleTasks w' !! j = guzzleTasks w !! j) /\
  length (guzzleTasks w') = length (guzzleTasks w) /\
  streams w' = streams w /\ gulpTasks w' = gulpTasks w /\
  vizInput w' = vizInput w /\ graphFilename w' = graphFilename w /\
  gulpStarted w' = gulpStarted w /\
  exists t t', guzzleTasks w !! 1 = Some t /\ guzzleTasks w' !! 1 = Some t' /\
    _name t' = _name t /\ _stream t' = _stream t /\
    _dependencies t' = _dependencies t /\ _runOnce t' = _runOnce t /\
    _onDoneFunction t' = _onDoneFunction t.
Proof.
  intros w w'.
  apply (deliver_frame clock_1s plain true SigStart "build" w w' 1);
    reflexivity.
Defined.

Lemma clock_1s_monotone : monotone clock_1s.
Proof. intros a b Hab. unfold clock_1s. lia. Qed.

Lemma restart_keeps_stale_ended_witness :
  let t := mkTask "build.css" None None None NOT_STARTED false [] (Some 0) in
  exists w1 w2 w3 t3 started ended,
    deliver clock_1s plain false SigStart (_name t) sample_world = Some w1 /\
    deliver clock_1s plain false SigStop (_name t) w1 = Some w2 /\
    deliver clock_1s plain false SigStart (_name t) w2 = Some w3 /\
    guzzleTasks w3 !! 0 = Some t3 /\ _state t3 = STARTED /\
    _started t3 = Some started /\ _ended t3 = Some ended /\
    (ended <= started)%Z /\
    forall now, elapsed_ms now t3 = (ended - started)%Z /\
                (elapsed_ms now t3 <= 0)%Z.
Proof.
  intros t.
  apply (restart_keeps_stale_ended clock_1s plain false 0 t sample_world);
    [exact clock_1s_monotone | reflexivity | reflexivity].
Defined.

Lemma never_started_suffix_witness :
  let t := mkTask "lint" None None None NOT_STARTED false [] (Some 1) in
  elapsed_suffix plain 5000 t = "(0ms)" /\
  task_line plain 5000 t = "- lint (0ms)".
Proof.
  intros t. apply (never_started_suffix plain 5000 t). reflexivity.
Defined.

Lemma plain_task_body_runs_every_time_witness :
  exists w',
    activations clock_1s plain false idle_body 2 [Stops; Fails; Hangs; Stops]
      sample_world
    = Some (w', 4).
Proof.
  apply (plain_task_body_runs_every_time clock_1s plain false idle_body 2
           [Stops; Fails; Hangs; Stops] sample_world
           (mkTask "lint" None None None NOT_STARTED false [] (Some 1)) 1);
    reflexivity.
Defined.

(** * Further properties of [read] *)

Lemma read_streams this w t :
  guzzleTasks w !! this = Some t ->
  exists w', read this w = Some w' /\
    guzzleTasks w' = <[this := set_stream (Some (length (streams w))) t]>
                       (guzzleTasks w) /\
    gulpTasks w' = gulpTasks w /\
    match _stream t with
    | None => streams w' = streams w ++ [mkStream false []]
    | Some old =>
        forall x, streams w !! old = Some x ->
          streams w'
          = <[old := mkStream (paused x)
                       (listeners x ++ [("finish", Resume (length (streams w)))])]>
              (streams w)
            ++ [mkStream true []]
    end.
Proof.
  intros Hr. unfold read. rewrite Hr. simpl. eexists. split; [reflexivity |].
  destruct (_stream t) as [old|] eqn:Hs; simpl.
  - split; [by apply alter_as_insert |]. split; [done |].
    intros x Hx.
    rewrite <- (Nat.add_0_r (length (streams w))) at 1.
    rewrite alter_app_r. simpl.
    rewrite alter_app_l by (by apply lookup_lt_Some in Hx).
    by rewrite (alter_as_insert _ _ _ _ Hx).
  - split; [by apply alter_as_insert | done].
Qed.

(** X15.  [read] puts a new stream, the last of the store, in the task
    and leaves every other task alone.  The new stream is paused exactly
    when the task held a stream; that stream gains the one listener that
    resumes the new stream on [finish], and no other stream changes. *)
Theorem read_effect this w t :
  guzzleTasks w !! this = Some t ->
  exists w', read this w = Some w' /\
    guzzleTasks w' = <[this := set_stream (Some (length (streams w))) t]>
                       (guzzleTasks w) /\
    match _stream t with
    | None => streams w' = streams w ++ [mkStream false []]
    | Some old =>
        forall x, streams w !! old = Some x ->
          streams w'
          = <[old := mkStream (paused x)
                       (listeners x ++ [("finish", Resume (length (streams w)))])]>
              (streams w)
            ++ [mkStream true []]
    end.
Proof.
  intros Hr. destruct (read_streams this w t Hr) as (w' & H1 & H2 & _ & H3).
  exists w'. done.
Qed.

Lemma read_effect_witness :
  exists w', read 0 sample_world = Some w' /\
    guzzleTasks w'
    = <[0 := set_stream (Some 0)
               (mkTask "build.css" None None None NOT_STARTED false [] (Some 0))]>
        (guzzleTasks sample_world) /\
    streams w' = streams sample_world ++ [mkStream false []].
Proof.
  apply (read_effect 0 sample_world
           (mkTask "build.css" None None None NOT_STARTED false [] (Some 0))).
  reflexivity.
Defined.

Lemma run_action_length w a :
  length (streams (run_action w a)) = length (streams w).
Proof. destruct a; simpl; [apply length_alter | done]. Qed.

Lemma foldl_run_action_length acts : forall w,
  length (streams (foldl run_action w acts)) = length (streams w).
Proof.
  induction acts as [|a acts IH]; intros w; simpl; [done |].
  by rewrite IH, run_action_length.
Qed.

Lemma run_action_resumed_stays w a k x :
  streams w !! k = Some x -> paused x = false ->
  exists x', streams (run_action w a) !! k = Some x' /\ paused x' = false.
Proof.
  intros Hk Hp. destruct a as [s | t]; simpl; [| eauto].
  rewrite list_lookup_alter. destruct (decide (s = k)) as [-> | Hne].
  - rewrite Hk. simpl. eauto.
  - eauto.
Qed.

Lemma foldl_run_action_resumed_stays acts : forall w k x,
  streams w !! k = Some x -> paused x = false ->
  exists x', streams (foldl run_action w acts) !! k = Some x' /\
    paused x' = false.
Proof.
  induction acts as [|a acts IH]; intros w k x Hk Hp; simpl; [eauto |].
  destruct (run_action_resumed_stays w a k x Hk Hp) as (x' & Hk' & Hp').
  by apply (IH _ _ x').
Qed.

(** No listener pauses a stream: once a listener that resumes [k] has
    run, [k] is not paused when all of them have run. *)
Lemma foldl_run_action_resumes acts : forall w k,
  k < length (streams w) ->
  Resume k ∈ acts ->
  exists x', streams (foldl run_action w acts) !! k = Some x' /\
    paused x' = false.
Proof.
  induction acts as [|a acts IH]; intros w k Hk Hin; simpl.
  - by apply elem_of_nil in Hin.
  - apply elem_of_cons in Hin as [<- | Hin].
    + destruct (lookup_lt_is_Some_2 (streams w) k Hk) as [x Hx].
      apply (foldl_run_action_resumed_stays acts _ k
               (mkStream false (listeners x))); [| done].
      simpl. by rewrite list_lookup_alter_eq, Hx.
    + apply IH; [by rewrite run_action_length | done].
Qed.

(** X16.  The stream made by [read] for a task that held the stream
    [old] is released by the [finish] of [old] and by that event only:
    when [old] emits [finish] the new stream is resumed, and when [old]
    emits [end] it stays paused. *)
Theorem read_released_by_finish this w t old x :
  listeners_in_range w ->
  guzzleTasks w !! this = Some t ->
  _stream t = Some old ->
  streams w !! old = Some x ->
  exists w', read this w = Some w' /\
    paused <$> streams w' !! length (streams w) = Some true /\
    paused <$> streams (emit old "finish" w') !! length (streams w) = Some false /\
    paused <$> streams (emit old "end" w') !! length (streams w) = Some true.
Proof.
  intros Hrange Hr Hs Hx.
  assert (Hold : old < length (streams w)) by (by apply lookup_lt_Some in Hx).
  assert (Hnone : resumers_ok (fun _ _ => False) (length (streams w)) w).
  { intros s y ev Hy Hin. pose proof (Hrange s y ev _ Hy Hin). lia. }
  destruct (second_read_held this w t old Hr Hs Hold Hnone)
    as (w' & Hread & _ & Hheld).
  destruct (read_streams this w t Hr) as (w'' & Hread' & _ & _ & Hst).
  rewrite Hread in Hread'. injection Hread' as <-.
  rewrite Hs in Hst. specialize (Hst x Hx).
  assert (Hp : forall w0, held_for old (length (streams w)) w0 ->
            paused <$> streams w0 !! length (streams w) = Some true).
  { intros w0 [(y & Hy & Hpy) _]. by rewrite Hy, <- Hpy. }
  exists w'. split; [done |]. split; [by apply Hp |]. split.
  - unfold emit.
    destruct (foldl_run_action_resumes (listeners_for w' old "finish") w'
                (length (streams w))) as (y & Hy & Hpy).
    + rewrite Hst, length_app, length_insert. simpl. lia.
    + unfold listeners_for. rewrite Hst.
      rewrite lookup_app_l by (by rewrite length_insert).
      rewrite list_lookup_insert_eq by done. simpl.
      apply (list_elem_of_fmap_2' snd _ ("finish", Resume (length (streams w))));
        [| done].
      apply list_elem_of_filter. split; [done |].
      apply elem_of_app. right. by left.
    + by rewrite Hy, <- Hpy.
  - apply Hp. apply emit_keeps_held; [| done]. intros [_ [=]].
Qed.

Lemma read_released_by_finish_witness :
  let w := default sample_world (read 0 sample_world) in
  exists w', read 0 w = Some w' /\
    paused <$> streams w' !! 1 = Some true /\
    paused <$> streams (emit 0 "finish" w') !! 1 = Some false /\
    paused <$> streams (emit 0 "end" w') !! 1 = Some true.
Proof.
  intros w.
  apply (read_released_by_finish 0 w
           (mkTask "build.css" (Some 0) None None NOT_STARTED false [] (Some 0))
           0 (mkStream false [])).
  - intros s y ev s' Hy Hin. destruct s as [|s]; simpl in Hy.
    + injection Hy as <-. by apply elem_of_nil in Hin.
    + by rewrite lookup_nil in Hy.
  - reflexivity.
  - reflexivity.
  - reflexivity.
Defined.

(** X17.  The listeners that the wrapper puts on a stream reset the
    stream field of the task whatever stream the field holds by then.
    When a task holds the stream [s0], which carries such a listener for
    [finish], and [read] is called again, the [finish] of [s0] empties
    the field although it holds the newer stream, and resumes that
    stream; a further [read] then finds no stream to wait for: its
    stream is not paused while the one before it is not paused either
    and has signalled nothing. *)
Theorem stale_reset_unholds this w t s0 x0 :
  listeners_in_range w ->
  guzzleTasks w !! this = Some t ->
  _stream t = Some s0 ->
  streams w !! s0 = Some x0 ->
  ("finish", ClearStream this) ∈ listeners x0 ->
  let s1 := length (streams w) in
  let s2 := S s1 in
  exists w1 w3,
    read this w = Some w1 /\
    paused <$> streams w1 !! s1 = Some true /\
    _stream <$> guzzleTasks (emit s0 "finish" w1) !! this = Some None /\
    read this (emit s0 "finish" w1) = Some w3 /\
    _stream <$> guzzleTasks w3 !! this = Some (Some s2) /\
    paused <$> streams w3 !! s1 = Some false /\
    streams w3 !! s2 = Some (mkStream false []).
Proof.
  intros Hrange Hr Hs Hx0 Hreset s1 s2.
  assert (Hold : s0 < length (streams w)) by (by apply lookup_lt_Some in Hx0).
  destruct (read_streams this w t Hr) as (w1 & Hread1 & Hts1 & _ & Hst1).
  rewrite Hs in Hst1. specialize (Hst1 x0 Hx0). fold s1 in Hst1, Hts1.
  assert (Hlen1 : length (streams w1) = S s1).
  { rewrite Hst1, length_app, length_insert. simpl. unfold s1. lia. }
  assert (Hacts : forall a, ("finish", a) ∈ listeners x0 ++ [("finish", Resume s1)] ->
            a ∈ listeners_for w1 s0 "finish").
  { intros a Ha. unfold listeners_for. rewrite Hst1.
    rewrite lookup_app_l by (by rewrite length_insert).
    rewrite list_lookup_insert_eq by done. simpl.
    apply (list_elem_of_fmap_2' snd _ ("finish", a)); [| done].
    by apply list_elem_of_filter. }
  set (w2 := emit s0 "finish" w1).
  assert (Hr1 : guzzleTasks w1 !! this = Some (set_stream (Some s1) t)).
  { rewrite Hts1. apply list_lookup_insert_eq. by apply lookup_lt_Some in Hr. }
  destruct (foldl_run_action_clears (listeners_for w1 s0 "finish") w1 this _ Hr1)
    as (t2 & Hr2 & Hs2).
  { apply Hacts. apply elem_of_app. by left. }
  destruct (foldl_run_action_resumes (listeners_for w1 s0 "finish") w1 s1)
    as (y1 & Hy1 & Hp1).
  { lia. }
  { apply Hacts. apply elem_of_app. right. by left. }
  fold (emit s0 "finish" w1) in Hr2, Hy1. fold w2 in Hr2, Hy1.
  assert (Hlen2 : length (streams w2) = S s1).
  { unfold w2, emit. by rewrite foldl_run_action_length. }
  destruct (read_streams this w2 t2 Hr2) as (w3 & Hread3 & Hts3 & _ & Hst3).
  rewrite Hs2 in Hst3. rewrite Hlen2 in Hts3.
  exists w1, w3. change (emit s0 "finish" w1) with w2.
  split; [done |]. split.
  { rewrite Hst1. rewrite lookup_app_r by (rewrite length_insert; unfold s1; lia).
    rewrite length_insert. unfold s1. by rewrite Nat.sub_diag. }
  split; [rewrite Hr2; simpl; by rewrite Hs2 |]. split; [done |]. split.
  { rewrite Hts3, list_lookup_insert_eq by (by apply lookup_lt_Some in Hr2).
    done. }
  split.
  - rewrite Hst3, lookup_app_l by (apply lookup_lt_Some in Hy1; lia).
    by rewrite Hy1, <- Hp1.
  - rewrite Hst3, lookup_app_r by lia. unfold s2.
    by rewrite Hlen2, Nat.sub_diag.
Qed.

Lemma stale_reset_unholds_witness :
  let w0 := fst (task "t" (ArgBody 0) false world0) in
  let w := default w0 (fst <$> onDoneFunction_call reading_body 0 0 w0) in
  exists w1 w3,
    read 0 w = Some w1 /\
    paused <$> streams w1 !! 1 = Some true /\
    _stream <$> guzzleTasks (emit 0 "finish" w1) !! 0 = Some None /\
    read 0 (emit 0 "finish" w1) = Some w3 /\
    _stream <$> guzzleTasks w3 !! 0 = Some (Some 2) /\
    paused <$> streams w3 !! 1 = Some false /\
    streams w3 !! 2 = Some (mkStream false []).
Proof.
  intros w0 w.
  apply (stale_reset_unholds 0 w
           (mkTask "t" (Some 0) None None NOT_STARTED false [] (Some 0))
           0 (mkStream false [("finish", ClearStream 0); ("end", ClearStream 0)])).
  - intros s y ev s' Hy Hin. destruct s as [|s]; simpl in Hy.
    + injection Hy as <-.
      apply elem_of_cons in Hin as [[=] | Hin].
      apply list_elem_of_singleton in Hin. discriminate.
    + by rewrite lookup_nil in Hy.
  - reflexivity.
  - reflexivity.
  - reflexivity.
  - by left.
Defined.

(** * The remaining properties on concrete tasks *)

Lemma deliver_fails_iff_unknown_witness :
  deliver clock_1s plain false SigStop "clean" sample_world = None.
Proof.
  apply (proj2 (deliver_fails_iff_unknown clock_1s plain false SigStop "clean"
                  sample_world)).
  reflexivity.
Defined.

Lemma shadowed_task_never_changes_witness :
  let w := fst (new_GuzzleTask "lint" [] (Some 2) true sample_world) in
  exists w', deliver_all clock_1s plain false [SigStart; SigStop; SigErr] "lint" w
             = Some w' /\
    guzzleTasks w' !! 3 = guzzleTasks w !! 3 /\
    findGuzzleTask w' "lint" = Some 2.
Proof.
  intros w.
  apply (shadowed_task_never_changes clock_1s plain false
           [SigStart; SigStop; SigErr] "lint" w 2 3); [reflexivity | lia].
Defined.

Lemma sample_world_stamps : Forall stamps_ok (guzzleTasks sample_world).
Proof. repeat constructor; simpl; discriminate. Qed.

Lemma deliver_keeps_stamps_witness :
  let w' := default sample_world
              (deliver clock_1s plain false SigStop "build" sample_world) in
  Forall stamps_ok (guzzleTasks w').
Proof.
  intros w'.
  apply (deliver_keeps_stamps clock_1s plain false SigStop "build"
           sample_world w'); [exact sample_world_stamps | reflexivity].
Defined.
